(** * Credential verification and account lockout of the news backend

    A shallow embedding of the login / lockout / bearer-token logic of
    [src/models/author.model.js] (the [Author] model; the [User] model in the
    same file carries the same methods word for word, over a schema without
    [bio], [socialLinks] and the deletion paths),
    [src/services/admin/author.service.js] ([loginAuthor]; [loginUser] in
    [user.service.js] is the same text) and the [verifyJWT] middleware.

    JavaScript values are modelled where the source relies on their
    coercions ([||], [+], [>=] on numbers, strings and [undefined]); the
    document store is an ordered collection of documents; [Date.now()],
    [process.env], bcrypt, jsonwebtoken, the [validator] library, the
    engine's case mapping and the ODM's string-to-Date cast are the platform
    the code runs on.  Strings are sequences of code units below 256.  The
    ODM's own bookkeeping paths ([createdAt], [updatedAt], [__v]) are left
    out. *)

From Stdlib Require Import ZArith String List Bool Lia.
From Stdlib Require Import DecimalString Ascii.
Import ListNotations.

Local Open Scope string_scope.
Local Open Scope list_scope.
Local Open Scope Z_scope.

(* ===================================================================== *)
(** ** JavaScript values and the coercions the source relies on          *)
(* ===================================================================== *)

Module Js.

(** Numbers that occur here are integers (counters, epoch milliseconds)
    and [NaN]. *)
Inductive number : Type :=
| Num (n : Z)
| NaN.

Inductive value : Type :=
| Undefined
| Null
| Boolean (b : bool)
| Number (x : number)
| String (s : string).

(** ToBoolean. *)
Definition truthy (v : value) : bool :=
  match v with
  | Undefined | Null => false
  | Boolean b => b
  | Number (Num n) => negb (n =? 0)%Z
  | Number NaN => false
  | String s => negb (s =? "")%string
  end.

(** [a || b] and [a && b]: the operand itself is the result. *)
Definition or (a b : value) : value := if truthy a then a else b.
Definition and (a b : value) : value := if truthy a then b else a.

(** Number::toString for integers below 1e21 (plain decimal digits). *)
Definition NumberToString (x : number) : string :=
  match x with
  | Num n => NilZero.string_of_int (Z.to_int n)
  | NaN => "NaN"
  end.

Definition ToString (v : value) : string :=
  match v with
  | Undefined => "undefined"
  | Null => "null"
  | Boolean true => "true"
  | Boolean false => "false"
  | Number x => NumberToString x
  | String s => s
  end.

Section WithStringToNumber.

(** StringToNumber is the engine's numeric-literal parser. *)
Variable StringToNumber : string -> number.

Definition ToNumber (v : value) : number :=
  match v with
  | Undefined => NaN
  | Null => Num 0
  | Boolean true => Num 1
  | Boolean false => Num 0
  | Number x => x
  | String s => StringToNumber s
  end.

(** [a + b] on primitives: concatenation as soon as one side is a
    string, numeric addition otherwise. *)
Definition add (a b : value) : value :=
  match a, b with
  | String _, _ | _, String _ => String (ToString a ++ ToString b)%string
  | _, _ =>
      match ToNumber a, ToNumber b with
      | Num x, Num y => Number (Num (x + y))
      | _, _ => Number NaN
      end
  end.

(** [a < b]: [undefined] (a NaN operand) counts as [false]. *)
Definition lt (a b : value) : bool :=
  match a, b with
  | String s, String t => String.ltb s t
  | _, _ =>
      match ToNumber a, ToNumber b with
      | Num x, Num y => x <? y
      | _, _ => false
      end
  end.

(** [a > b]. *)
Definition gt (a b : value) : bool := lt b a.

(** [a >= b]: the negation of [a < b], except that a NaN operand
    gives [false]. *)
Definition ge (a b : value) : bool :=
  match a, b with
  | String s, String t => negb (String.ltb s t)
  | _, _ =>
      match ToNumber a, ToNumber b with
      | Num x, Num y => y <=? x
      | _, _ => false
      end
  end.

End WithStringToNumber.

Definition of_env (v : option string) : value :=
  match v with
  | Some s => String s
  | None => Undefined
  end.

Definition of_number (v : option Z) : value :=
  match v with
  | Some n => Number (Num n)
  | None => Undefined
  end.

(** [String.prototype.replace(pat, rep)] with a string pattern: the first
    occurrence only. *)
Fixpoint replace (pat rep s : string) : string :=
  if String.prefix pat s
  then (rep ++ substring (String.length pat)
                (String.length s - String.length pat)%nat s)%string
  else match s with
       | EmptyString => EmptyString
       | String.String c s' => String.String c (replace pat rep s')
       end.

End Js.

(* ===================================================================== *)
(** ** Data model: the author schema                                     *)
(* ===================================================================== *)

Definition ObjectId := N.

(** Epoch milliseconds of a valid [Date]. *)
Definition Date := Z.

Record LoginEntry : Type := mkLoginEntry {
  device : string;
  ipAddress : string;
  timestamp : Date
}.

Record SocialLinks : Type := mkSocialLinks {
  facebook : option string;
  twitter : option string;
  instagram : option string;
  linkedin : option string
}.

(** A document of the [authors] collection.  The five paths declared
    [select: false] in the schema ([password], [passwordChangedAt],
    [loginAttempts], [lockUntil], [refreshToken]) are optional: [None] is
    [undefined]/[null], which is also what a loaded document holds for a
    path the query did not select. *)
Record Author : Type := mkAuthor {
  _id : ObjectId;
  firstName : string;
  lastName : string;
  email : string;
  phone : string;
  password : option string;
  passwordChangedAt : option Date;
  avatar : string;
  coverImage : string;
  role : string;
  bio : string;
  socialLinks : SocialLinks;
  loginHistory : list LoginEntry;
  loginAttempts : option Z;
  lockUntil : option Date;
  isVerified : bool;
  isActive : bool;
  refreshToken : option string;
  lastActive : option Date;
  isDeleted : bool;
  deletedAt : option Date;
  deletedBy : option ObjectId
}.

Definition with_password (v : option string) (a : Author) : Author :=
  mkAuthor (_id a) (firstName a) (lastName a) (email a) (phone a) v
    (passwordChangedAt a) (avatar a) (coverImage a) (role a) (bio a)
    (socialLinks a) (loginHistory a) (loginAttempts a) (lockUntil a)
    (isVerified a) (isActive a) (refreshToken a) (lastActive a)
    (isDeleted a) (deletedAt a) (deletedBy a).

Definition with_passwordChangedAt (v : option Date) (a : Author) : Author :=
  mkAuthor (_id a) (firstName a) (lastName a) (email a) (phone a) (password a)
    v (avatar a) (coverImage a) (role a) (bio a)
    (socialLinks a) (loginHistory a) (loginAttempts a) (lockUntil a)
    (isVerified a) (isActive a) (refreshToken a) (lastActive a)
    (isDeleted a) (deletedAt a) (deletedBy a).

Definition with_loginHistory (v : list LoginEntry) (a : Author) : Author :=
  mkAuthor (_id a) (firstName a) (lastName a) (email a) (phone a) (password a)
    (passwordChangedAt a) (avatar a) (coverImage a) (role a) (bio a)
    (socialLinks a) v (loginAttempts a) (lockUntil a)
    (isVerified a) (isActive a) (refreshToken a) (lastActive a)
    (isDeleted a) (deletedAt a) (deletedBy a).

Definition with_loginAttempts (v : option Z) (a : Author) : Author :=
  mkAuthor (_id a) (firstName a) (lastName a) (email a) (phone a) (password a)
    (passwordChangedAt a) (avatar a) (coverImage a) (role a) (bio a)
    (socialLinks a) (loginHistory a) v (lockUntil a)
    (isVerified a) (isActive a) (refreshToken a) (lastActive a)
    (isDeleted a) (deletedAt a) (deletedBy a).

Definition with_lockUntil (v : option Date) (a : Author) : Author :=
  mkAuthor (_id a) (firstName a) (lastName a) (email a) (phone a) (password a)
    (passwordChangedAt a) (avatar a) (coverImage a) (role a) (bio a)
    (socialLinks a) (loginHistory a) (loginAttempts a) v
    (isVerified a) (isActive a) (refreshToken a) (lastActive a)
    (isDeleted a) (deletedAt a) (deletedBy a).

Definition with_refreshToken (v : option string) (a : Author) : Author :=
  mkAuthor (_id a) (firstName a) (lastName a) (email a) (phone a) (password a)
    (passwordChangedAt a) (avatar a) (coverImage a) (role a) (bio a)
    (socialLinks a) (loginHistory a) (loginAttempts a) (lockUntil a)
    (isVerified a) (isActive a) v (lastActive a)
    (isDeleted a) (deletedAt a) (deletedBy a).

Definition with_lastActive (v : option Date) (a : Author) : Author :=
  mkAuthor (_id a) (firstName a) (lastName a) (email a) (phone a) (password a)
    (passwordChangedAt a) (avatar a) (coverImage a) (role a) (bio a)
    (socialLinks a) (loginHistory a) (loginAttempts a) (lockUntil a)
    (isVerified a) (isActive a) (refreshToken a) v
    (isDeleted a) (deletedAt a) (deletedBy a).


Definition with_isActive (v : bool) (a : Author) : Author :=
  mkAuthor (_id a) (firstName a) (lastName a) (email a) (phone a) (password a)
    (passwordChangedAt a) (avatar a) (coverImage a) (role a) (bio a)
    (socialLinks a) (loginHistory a) (loginAttempts a) (lockUntil a)
    (isVerified a) v (refreshToken a) (lastActive a)
    (isDeleted a) (deletedAt a) (deletedBy a).

Definition with_isDeleted (v : bool) (a : Author) : Author :=
  mkAuthor (_id a) (firstName a) (lastName a) (email a) (phone a) (password a)
    (passwordChangedAt a) (avatar a) (coverImage a) (role a) (bio a)
    (socialLinks a) (loginHistory a) (loginAttempts a) (lockUntil a)
    (isVerified a) (isActive a) (refreshToken a) (lastActive a)
    v (deletedAt a) (deletedBy a).

(** The schema paths declared [select: false]. *)
Inductive HiddenPath : Type :=
| P_password
| P_passwordChangedAt
| P_loginAttempts
| P_lockUntil
| P_refreshToken.

Definition HiddenPath_eqb (p q : HiddenPath) : bool :=
  match p, q with
  | P_password, P_password
  | P_passwordChangedAt, P_passwordChangedAt
  | P_loginAttempts, P_loginAttempts
  | P_lockUntil, P_lockUntil
  | P_refreshToken, P_refreshToken => true
  | _, _ => false
  end.

Definition selected (plus : list HiddenPath) (p : HiddenPath) : bool :=
  existsb (HiddenPath_eqb p) plus.

(** The projection of a query whose [select] string adds the paths [plus]
    with a leading [+] (and otherwise only excludes): every [select: false]
    path not named with [+] is absent from the loaded document. *)
Definition applySelect (plus : list HiddenPath) (a : Author) : Author :=
  mkAuthor (_id a) (firstName a) (lastName a) (email a) (phone a)
    (if selected plus P_password then password a else None)
    (if selected plus P_passwordChangedAt then passwordChangedAt a else None)
    (avatar a) (coverImage a) (role a) (bio a) (socialLinks a)
    (loginHistory a)
    (if selected plus P_loginAttempts then loginAttempts a else None)
    (if selected plus P_lockUntil then lockUntil a else None)
    (isVerified a) (isActive a)
    (if selected plus P_refreshToken then refreshToken a else None)
    (lastActive a) (isDeleted a) (deletedAt a) (deletedBy a).

(** Paths the login code assigns before [save()]; the ODM persists exactly
    the modified paths of a loaded document. *)
Inductive ModifiedPath : Type :=
| M_password
| M_loginHistory
| M_lastActive
| M_refreshToken.

Definition ModifiedPath_eqb (p q : ModifiedPath) : bool :=
  match p, q with
  | M_password, M_password
  | M_loginHistory, M_loginHistory
  | M_lastActive, M_lastActive
  | M_refreshToken, M_refreshToken => true
  | _, _ => false
  end.

(** A loaded (in-memory) document: its fields, its modified paths, and
    the [select: false] paths the query that loaded it named with [+]. *)
Record Document : Type := mkDocument {
  fields :> Author;
  modified : list ModifiedPath;
  selection : list HiddenPath
}.

(** A document loaded by a query that names no [select: false] path. *)
Definition hydrate (a : Author) : Document := mkDocument a [] [].

(** A document loaded by a query whose [select] adds the paths [plus]. *)
Definition load (plus : list HiddenPath) (a : Author) : Document :=
  mkDocument (applySelect plus a) [] plus.

Definition isModified (p : ModifiedPath) (this : Document) : bool :=
  existsb (ModifiedPath_eqb p) (modified this).

Definition assign (p : ModifiedPath) (f : Author -> Author) (this : Document)
  : Document :=
  mkDocument (f (fields this)) (p :: modified this) (selection this).

(* ===================================================================== *)
(** ** The platform the code runs on                                     *)
(* ===================================================================== *)

(** What [jwt.sign] is given. *)
Inductive TokenPayload : Type :=
| AccessPayload (id : ObjectId) (mail : string) (rl : string)
| RefreshPayload (id : ObjectId).

(** What [jwt.verify] gives back: the claims read by [verifyJWT]. *)
Record DecodedToken : Type := mkDecodedToken {
  token_id : ObjectId;
  iat : Js.value
}.

Inductive JwtVerifyResult : Type :=
| Decoded (t : DecodedToken)
| VerifyError (name : string).

Class Platform : Type := {
  (** [process.env.NAME]: a string, or [undefined]. *)
  process_env : string -> option string;
  (** the n-th reading of [Date.now()] *)
  Date_now : nat -> Z;
  (** the engine's StringToNumber *)
  StringToNumber : string -> Js.number;
  (** [bcrypt.compare(candidate, hash)] *)
  bcrypt_compare : string -> string -> bool;
  (** [bcrypt.hash(plain, await bcrypt.genSalt(12))]; the salt is drawn per
      call *)
  bcrypt_hash : string -> nat -> string;
  (** [jwt.sign(payload, secret, {expiresIn})]; [None] when it throws *)
  jwt_sign : TokenPayload -> option string -> option string -> nat
             -> option string;
  (** [jwt.verify(token, secret)] *)
  jwt_verify : string -> option string -> JwtVerifyResult;
  (** the ODM's cast of a non-empty string to the schema type [Date];
      [None] is a cast error *)
  castDateString : string -> option Date;
  (** [validator.isEmail] and [validator.isURL], as the ODM calls them *)
  validator_isEmail : string -> bool;
  validator_isURL : string -> bool;
  (** [String.prototype.toLowerCase] and [String.prototype.trim] *)
  String_toLowerCase : string -> string;
  String_trim : string -> string
}.

(* ===================================================================== *)
(** ** World state, exceptions and the monad of the async code           *)
(* ===================================================================== *)

(** The five decision points of the login path. *)
Inductive Gate : Type :=
| GateExists
| GateNotLocked
| GatePassword
| GateActive
| GateVerified.

(** Ghost trace of what ran: a gate evaluated (with its outcome), the
    password hasher invoked, a store write. *)
Inductive Event : Type :=
| EvGate (g : Gate) (passed : bool)
| EvBcryptCompare
| EvUpdateOne (id : ObjectId)
| EvSave (id : ObjectId)
| EvSign.

Record World : Type := mkWorld {
  authors : list Author;   (* the collection, in natural order *)
  ticks : nat;             (* readings of [Date.now()] taken so far *)
  trace : list Event
}.

Inductive Exception : Type :=
| ApiError (statusCode : Z) (message : string)
| CastError (path : string)
| ValidationError (paths : list string)   (* the paths that failed *)
| MongoServerError (message : string)
| BcryptError
| JwtSignError
| DocumentNotFoundError.

Inductive Result (A : Type) : Type :=
| Ok (a : A)
| Throw (e : Exception).

Arguments Ok {A} a.
Arguments Throw {A} e.

Definition M (A : Type) : Type := World -> Result A * World.

Definition ret {A} (a : A) : M A := fun w => (Ok a, w).

Definition bind {A B} (c : M A) (k : A -> M B) : M B :=
  fun w =>
    match c w with
    | (Ok a, w') => k a w'
    | (Throw e, w') => (Throw e, w')
    end.

Definition throw {A} (e : Exception) : M A := fun w => (Throw e, w).

Declare Scope async_scope.
Delimit Scope async_scope with async.
Notation "x <- c ;; k" := (bind c (fun x => k))
  (at level 100, c at next level, right associativity) : async_scope.
Notation "c ;;; k" := (bind c (fun _ => k))
  (at level 100, right associativity) : async_scope.
Local Open Scope async_scope.

Definition emit (e : Event) : M unit :=
  fun w => (Ok tt, mkWorld (authors w) (ticks w) (trace w ++ [e])).

Definition getAuthors : M (list Author) := fun w => (Ok (authors w), w).

Definition putAuthors (db : list Author) : M unit :=
  fun w => (Ok tt, mkWorld db (ticks w) (trace w)).

Definition getTicks : M nat := fun w => (Ok (ticks w), w).

(** http-status *)
Definition UNAUTHORIZED : Z := 401.
Definition FORBIDDEN : Z := 403.

(* ===================================================================== *)
(** ** The collection                                                    *)
(* ===================================================================== *)

(** The first document with the given [_id]. *)
Definition lookupById (id : ObjectId) (db : list Author) : option Author :=
  find (fun a => (_id a =? id)%N) db.

(** Rewrite the first document with the given [_id]. *)
Fixpoint updateById (id : ObjectId) (f : Author -> Author) (db : list Author)
  : list Author :=
  match db with
  | [] => []
  | a :: rest =>
      if (_id a =? id)%N then f a :: rest else a :: updateById id f rest
  end.

Section Model.

Context {P : Platform}.

(** The filter [{ email, isActive: true }].  The ODM casts a filter value
    with the setters of its path: [email] is declared [lowercase: true,
    trim: true], and the setters run last declared first. *)
Definition matchesLogin (mail : string) (a : Author) : bool :=
  (email a =? String_toLowerCase (String_trim mail))%string
  && Bool.eqb (isActive a) true.

(** [Date.now()] *)
Definition now : M Z :=
  fun w => (Ok (Date_now (ticks w)), mkWorld (authors w) (S (ticks w)) (trace w)).

(** [this.findOne({ email, isActive: true }).select("+a +b ...")] *)
Definition findOne_email_isActive (mail : string) (plus : list HiddenPath)
  : M (option Document) :=
  db <- getAuthors ;;
  ret (option_map (load plus) (find (matchesLogin mail) db)).

(** [Author.findById(id).select("-a -b ...")] *)
Definition findById (id : ObjectId) (plus : list HiddenPath)
  : M (option Document) :=
  db <- getAuthors ;;
  ret (option_map (load plus) (lookupById id db)).

(** The update documents the model builds:
    [{ $inc: { loginAttempts }, $set: { loginAttempts, lockUntil } }]. *)
Record Update : Type := mkUpdate {
  inc_loginAttempts : option Z;
  set_loginAttempts : option Z;
  set_lockUntil : option Js.value
}.

(** Largest time value of a valid [Date]. *)
Definition MAX_TIME : Z := 8640000000000000.

(** The ODM casts a [$set] value to the schema type [Date]; the outer
    [None] is a cast error (nothing is written). *)
Definition castDate (v : Js.value) : option (option Date) :=
  match v with
  | Js.Undefined | Js.Null => Some None
  | Js.Boolean _ => None
  | Js.Number (Js.Num n) =>
      if (- MAX_TIME <=? n) && (n <=? MAX_TIME) then Some (Some n) else None
  | Js.Number Js.NaN => None
  | Js.String s =>
      if (s =? "")%string then Some None
      else match castDateString s with
           | Some d => Some (Some d)
           | None => None
           end
  end.

Definition applyUpdate (u : Update) (lock : option (option Date)) (a : Author)
  : Author :=
  let a1 :=
    match inc_loginAttempts u with
    | Some k =>
        with_loginAttempts
          (Some (match loginAttempts a with Some n => n | None => 0 end + k)) a
    | None => a
    end in
  let a2 :=
    match set_loginAttempts u with
    | Some n => with_loginAttempts (Some n) a1
    | None => a1
    end in
  match lock with
  | Some d => with_lockUntil d a2
  | None => a2
  end.

(** [this.updateOne(updates)]: an update of the stored document with this
    [_id]; the loaded document [this] is not touched. *)
Definition updateOne (this : Document) (u : Update) : M unit :=
  match set_lockUntil u with
  | Some v =>
      match castDate v with
      | None => throw (CastError "lockUntil")
      | Some d =>
          db <- getAuthors ;;
          putAuthors (updateById (_id this) (applyUpdate u (Some d)) db) ;;;
          emit (EvUpdateOne (_id this))
      end
  | None =>
      db <- getAuthors ;;
      putAuthors (updateById (_id this) (applyUpdate u None) db) ;;;
      emit (EvUpdateOne (_id this))
  end.

(** What [save()] writes for one modified path. *)
Definition persistPath (this : Author) (p : ModifiedPath) (stored : Author)
  : Author :=
  match p with
  | M_password =>
      with_passwordChangedAt (passwordChangedAt this)
        (with_password (password this) stored)
  | M_loginHistory => with_loginHistory (loginHistory this) stored
  | M_lastActive => with_lastActive (lastActive this) stored
  | M_refreshToken => with_refreshToken (refreshToken this) stored
  end.

(** The validators of the schema. *)

(** [/^[a-zA-Z\s-']+$/] on one code unit: a letter, white space, a hyphen
    or an apostrophe. *)
Definition isNameChar (c : Ascii.ascii) : bool :=
  let n := Ascii.N_of_ascii c in
  ((65 <=? n) && (n <=? 90) || (97 <=? n) && (n <=? 122)
   || (9 <=? n) && (n <=? 13) || (n =? 32) || (n =? 160)
   || (n =? 45) || (n =? 39))%N.

Fixpoint allChars (ok : Ascii.ascii -> bool) (s : string) : bool :=
  match s with
  | EmptyString => true
  | String.String c rest => ok c && allChars ok rest
  end.

(** [firstName], [lastName]: required, [minlength 2], [maxlength 50] and
    the [match] above. *)
Definition validName (s : string) : bool :=
  (2 <=? String.length s)%nat && (String.length s <=? 50)%nat
  && allChars isNameChar s.

Definition isDigit (c : Ascii.ascii) : bool :=
  let n := Ascii.N_of_ascii c in ((48 <=? n) && (n <=? 57))%N.

(** [/^[6-9]\d{9}$/] *)
Definition validPhone (s : string) : bool :=
  match s with
  | String.String c rest =>
      (let n := Ascii.N_of_ascii c in ((54 <=? n) && (n <=? 57))%N)
      && (String.length rest =? 9)%nat && allChars isDigit rest
  | EmptyString => false
  end.

Definition check (ok : bool) (path : string) : list string :=
  if ok then [] else [path].

(** [save()] validates the paths of the document that were loaded,
    defaulted or modified; a [select: false] path counts when the query
    named it or when it was assigned.  A custom validator is not run on
    [undefined]; only [required] is.  The result lists the paths that
    failed, in the order of the schema. *)
Definition validationFailures (this : Document) : list string :=
  check (validName (firstName this)) "firstName" ++
  check (validName (lastName this)) "lastName" ++
  check (negb (email this =? "")%string && validator_isEmail (email this))
    "email" ++
  check (validPhone (phone this)) "phone" ++
  (if selected (selection this) P_password || isModified M_password this
   then
     check match password this with
           | Some p => (8 <=? String.length p)%nat
           | None => false
           end "password"
   else []) ++
  check (validator_isURL (avatar this)) "avatar" ++
  check (validator_isURL (coverImage this)) "coverImage" ++
  check ((role this =? "author")%string || (role this =? "admin")%string)
    "role" ++
  check (String.length (bio this) <=? 500)%nat "bio" ++
  check match facebook (socialLinks this) with
        | Some u => validator_isURL u | None => true end
    "socialLinks.facebook" ++
  check match twitter (socialLinks this) with
        | Some u => validator_isURL u | None => true end
    "socialLinks.twitter" ++
  check match instagram (socialLinks this) with
        | Some u => validator_isURL u | None => true end
    "socialLinks.instagram" ++
  check match linkedin (socialLinks this) with
        | Some u => validator_isURL u | None => true end
    "socialLinks.linkedin".

(** The [pre("save")] hook, then the modified paths are written to the
    stored document. *)
Definition saveValidated (this : Document) : M Document :=
  this1 <-
    (if negb (isModified M_password this) then ret this
     else
       n <- getTicks ;;
       t <- now ;;
       ret (mkDocument
              (with_passwordChangedAt (Some t)
                 (with_password
                    (option_map (fun p => bcrypt_hash p n) (password this))
                    this))
              (modified this) (selection this))) ;;
  db <- getAuthors ;;
  match lookupById (_id this1) db with
  | None => throw DocumentNotFoundError
  | Some _ =>
      putAuthors
        (updateById (_id this1)
           (fun stored => fold_right (persistPath this1) stored (modified this1))
           db) ;;;
      emit (EvSave (_id this1)) ;;;
      ret (mkDocument (fields this1) [] (selection this1))
  end.

(** [this.save()]: the ODM validates first and writes nothing when a path
    fails. *)
Definition save (this : Document) : M Document :=
  match validationFailures this with
  | [] => saveValidated this
  | failed => throw (ValidationError failed)
  end.

(* ------------------------------------------------------------------- *)
(** *** Instance methods ([authorSchema.methods])                      *)
(* ------------------------------------------------------------------- *)

Definition generateAccessToken (this : Document) : M string :=
  n <- getTicks ;;
  match jwt_sign (AccessPayload (_id this) (email this) (role this))
          (process_env "ACCESS_TOKEN_SECRET")
          (process_env "ACCESS_TOKEN_EXPIRY") n with
  | Some t => emit EvSign ;;; ret t
  | None => throw JwtSignError
  end.

Definition generateRefreshToken (this : Document) : M string :=
  n <- getTicks ;;
  match jwt_sign (RefreshPayload (_id this))
          (process_env "REFRESH_TOKEN_SECRET")
          (process_env "REFRESH_TOKEN_EXPIRY") n with
  | Some t => emit EvSign ;;; ret t
  | None => throw JwtSignError
  end.

(** [bcrypt.compare(candidatePassword, this.password)]; bcrypt rejects a
    missing hash. *)
Definition comparePassword (this : Document) (candidatePassword : string)
  : M bool :=
  emit EvBcryptCompare ;;;
  match password this with
  | Some h => ret (bcrypt_compare candidatePassword h)
  | None => throw BcryptError
  end.

(** [parseInt(this.passwordChangedAt.getTime() / 1000, 10)]: the integer
    part of the quotient, for every valid [Date]. *)
Definition changedTimestamp (t : Date) : Z := Z.quot t 1000.

Definition changedPasswordAfter (this : Author) (JWTTimestamp : Js.value)
  : bool :=
  match passwordChangedAt this with
  | Some t =>
      Js.lt StringToNumber JWTTimestamp
        (Js.Number (Js.Num (changedTimestamp t)))
  | None => false
  end.

(** [this.lockUntil && this.lockUntil > Date.now()], as the truth value
    its callers test; the clock is read only when [lockUntil] is set. *)
Definition isAccountLocked (this : Author) : M bool :=
  match lockUntil this with
  | None => ret false
  | Some u => t <- now ;; ret (t <? u)
  end.

(** [this.loginAttempts + 1 >= process.env.MAX_LOGIN_ATTEMPTS || 5] *)
Definition thresholdCondition (this : Author) : Js.value :=
  Js.or
    (Js.Boolean
       (Js.ge StringToNumber
          (Js.add StringToNumber (Js.of_number (loginAttempts this))
             (Js.Number (Js.Num 1)))
          (Js.of_env (process_env "MAX_LOGIN_ATTEMPTS"))))
    (Js.Number (Js.Num 5)).

(** [Date.now() + process.env.LOCK_TIME || 2 * 60 * 60 * 1000] *)
Definition lockUntilValue (t : Z) : Js.value :=
  Js.or
    (Js.add StringToNumber (Js.Number (Js.Num t))
       (Js.of_env (process_env "LOCK_TIME")))
    (Js.Number (Js.Num (2 * 60 * 60 * 1000))).

Definition incrementLoginAttempts (this : Document) : M unit :=
  locked <- isAccountLocked this ;;
  if locked then ret tt
  else
    if Js.truthy (thresholdCondition this)
    then
      t <- now ;;
      updateOne this (mkUpdate (Some 1) None (Some (lockUntilValue t)))
    else
      updateOne this (mkUpdate (Some 1) None None).

Definition resetLoginAttempts (this : Document) : M unit :=
  updateOne this (mkUpdate None (Some 0) (Some Js.Null)).

Inductive DeviceInfo : Type :=
| DeviceString (s : string)
| DeviceObject (json : string).   (* with its [JSON.stringify] rendering *)

Definition recordLogin (this : Document) (deviceInfo : DeviceInfo)
    (ip : string) : M Document :=
  stamp <- now ;;
  let entry :=
    mkLoginEntry
      (match deviceInfo with
       | DeviceString s => s
       | DeviceObject json => json
       end)
      ip stamp in
  let this1 :=
    assign M_loginHistory
      (fun a => with_loginHistory (loginHistory a ++ [entry]) a) this in
  t <- now ;;
  let this2 := assign M_lastActive (with_lastActive (Some t)) this1 in
  save this2.

(* ------------------------------------------------------------------- *)
(** *** Static method [findByCredentials]                              *)
(* ------------------------------------------------------------------- *)

Definition findByCredentials (mail pass : string) : M (option Document) :=
  found <- findOne_email_isActive mail
             [P_password; P_loginAttempts; P_lockUntil] ;;
  match found with
  | None => emit (EvGate GateExists false) ;;; ret None
  | Some author =>
      emit (EvGate GateExists true) ;;;
      locked <- isAccountLocked author ;;
      emit (EvGate GateNotLocked (negb locked)) ;;;
      if locked then ret None
      else
        isMatch <- comparePassword author pass ;;
        emit (EvGate GatePassword isMatch) ;;;
        if negb isMatch
        then incrementLoginAttempts author ;;; ret None
        else resetLoginAttempts author ;;; ret (Some author)
  end.

End Model.

(* ===================================================================== *)
(** ** The login service and the bearer-token middleware                 *)
(* ===================================================================== *)

(** The account view [loginAuthor] returns. *)
Record AuthorView : Type := mkAuthorView {
  view_id : ObjectId;
  view_firstName : string;
  view_lastName : string;
  view_email : string;
  view_phone : string;
  view_role : string;
  view_avatar : string;
  view_coverImage : string;
  view_isVerified : bool;
  view_isActive : bool;
  view_lastActive : option Date
}.

Record LoginResult : Type := mkLoginResult {
  author : AuthorView;
  accessToken : string;
  refreshToken_issued : string
}.

(** What [verifyJWT] reads of the request. *)
Record Request : Type := mkRequest {
  cookies_accessToken : option string;
  header_Authorization : option string
}.

Section Service.

Context {P : Platform}.

Definition loginAuthor (mail pass : string) (deviceInfo : DeviceInfo)
    (ip : string) : M LoginResult :=
  found <- findByCredentials mail pass ;;
  match found with
  | None => throw (ApiError UNAUTHORIZED "Invalid email or password")
  | Some author0 =>
      emit (EvGate GateActive (isActive author0)) ;;;
      if negb (isActive author0)
      then throw (ApiError FORBIDDEN "Account is inactive")
      else
        emit (EvGate GateVerified (isVerified author0)) ;;;
        if negb (isVerified author0)
        then throw (ApiError FORBIDDEN "Please verify your account first")
        else
          author1 <- recordLogin author0 deviceInfo ip ;;
          access <- generateAccessToken author1 ;;
          refresh <- generateRefreshToken author1 ;;
          author2 <- save (assign M_refreshToken
                             (with_refreshToken (Some refresh)) author1) ;;
          ret (mkLoginResult
                 (mkAuthorView (_id author2) (firstName author2)
                    (lastName author2) (email author2) (phone author2)
                    (role author2) (avatar author2) (coverImage author2)
                    (isVerified author2) (isActive author2)
                    (lastActive author2))
                 access refresh)
  end.

(** [user.service.js] holds the same function over the [User] model, whose
    schema validates the same paths except [bio] and [socialLinks], which it
    does not have, and [role], whose values there are [user], [admin] and
    [moderator]. *)
Definition loginUser := loginAuthor.

(** [req.cookies?.accessToken ||
     req.header("Authorization")?.replace("Bearer ", "")] *)
Definition bearerToken (req : Request) : Js.value :=
  Js.or (Js.of_env (cookies_accessToken req))
    (Js.of_env (option_map (Js.replace "Bearer " "") (header_Authorization req))).

Definition passwordChangedMessage : string :=
  "Unauthorized - Password changed recently. Please login again".

Definition verifyJWT (req : Request) : M Document :=
  let token := bearerToken req in
  if negb (Js.truthy token)
  then throw (ApiError 401 "Unauthorized - No token provided")
  else
    match jwt_verify (Js.ToString token) (process_env "ACCESS_TOKEN_SECRET") with
    | VerifyError name =>
        if (name =? "TokenExpiredError")%string
        then throw (ApiError 401 "Unauthorized - Token expired")
        else if (name =? "JsonWebTokenError")%string
        then throw (ApiError 401 "Unauthorized - Invalid token")
        else throw (ApiError 500 "Token verification failed")
    | Decoded decodedToken =>
        found <- findById (token_id decodedToken) [] ;;
        match found with
        | None => throw (ApiError 401 "Unauthorized - Author not found")
        | Some author0 =>
            if isDeleted author0
            then throw (ApiError 401 "Unauthorized - Account has been deleted")
            else
              if changedPasswordAfter author0 (iat decodedToken)
              then throw (ApiError 401 passwordChangedMessage)
              else ret author0
        end
    end.

End Service.

(* ===================================================================== *)
(** ** Observing the trace                                               *)
(* ===================================================================== *)

Definition isGateEvent (e : Event) : bool :=
  match e with
  | EvGate _ _ => true
  | _ => false
  end.

(** The gate evaluations of a trace, in the order they happened. *)
Definition gateEvents (tr : list Event) : list Event := filter isGateEvent tr.

Definition isHasherEvent (e : Event) : bool :=
  match e with
  | EvBcryptCompare => true
  | _ => false
  end.

(** How often the password hasher was invoked. *)
Definition hasherCalls (tr : list Event) : nat :=
  List.length (filter isHasherEvent tr).

Definition isFailedGate (e : Event) : bool :=
  match e with
  | EvGate _ false => true
  | _ => false
  end.

(** The first gate of a trace that did not pass. *)
Definition failedGate (tr : list Event) : option Gate :=
  match find isFailedGate tr with
  | Some (EvGate g _) => Some g
  | _ => None
  end.

Definition gateOf (e : Event) : option Gate :=
  match e with
  | EvGate g _ => Some g
  | _ => None
  end.

(** No gate is evaluated after one that failed. *)
Fixpoint shortCircuits (tr : list Event) : bool :=
  match tr with
  | [] => true
  | e :: rest =>
      if isFailedGate e then
        match rest with [] => true | _ :: _ => false end
      else shortCircuits rest
  end.

(** The order in which the gates are met. *)
Definition gateOrder : list Gate :=
  [GateExists; GateNotLocked; GatePassword; GateActive; GateVerified].

Definition invalidCredentials : Exception :=
  ApiError UNAUTHORIZED "Invalid email or password".

Definition accountInactive : Exception :=
  ApiError FORBIDDEN "Account is inactive".

Definition accountUnverified : Exception :=
  ApiError FORBIDDEN "Please verify your account first".

(** The error [loginAuthor] throws for each gate. *)
Definition gateError (g : Gate) : Exception :=
  match g with
  | GateExists | GateNotLocked | GatePassword => invalidCredentials
  | GateActive => accountInactive
  | GateVerified => accountUnverified
  end.


(** The lock test at clock reading [t]. *)
Definition lockedAt (t : Z) (a : Author) : bool :=
  match lockUntil a with
  | Some u => t <? u
  | None => false
  end.

Section GateSequences.

Context {P : Platform}.

(** The gates after the account lookup: not locked, password, isActive,
    isVerified, stopping at the first that fails (or at a hasher
    failure). *)
Definition gatesAfterLookup (t : Z) (pass : string) (a : Author)
  : list Event :=
  EvGate GateNotLocked (negb (lockedAt t a)) ::
  if lockedAt t a then []
  else
    match password a with
    | None => []
    | Some h =>
        EvGate GatePassword (bcrypt_compare pass h) ::
        if negb (bcrypt_compare pass h) then []
        else
          EvGate GateActive (isActive a) ::
          if negb (isActive a) then []
          else [EvGate GateVerified (isVerified a)]
    end.

(** The gate sequence of the code: the lookup is by email among the
    active accounts. *)
Definition codeGates (db : list Author) (t : Z) (mail pass : string)
  : list Event :=
  match find (matchesLogin mail) db with
  | None => [EvGate GateExists false]
  | Some a => EvGate GateExists true :: gatesAfterLookup t pass a
  end.

End GateSequences.

(** The login gates and the error taxonomy as sections 4.4 and 7 of the
    specification word them. *)
Module Spec.

Section Gates.

Context {P : Platform}.

(** "account exists by email -> not locked -> password verifies ->
    account isActive -> account isVerified", first failure wins. *)
Definition loginGates (db : list Author) (t : Z) (mail pass : string)
  : list Event :=
  match find (fun a => (email a =? mail)%string) db with
  | None => [EvGate GateExists false]
  | Some a => EvGate GateExists true :: gatesAfterLookup t pass a
  end.

End Gates.





End Spec.

(** A computation that evaluates no gate: it only appends events that are
    not gate events. *)
Definition quiet {A : Type} (c : M A) : Prop :=
  forall w, exists ev,
    trace (snd (c w)) = trace w ++ ev /\ gateEvents ev = [].

(** The events a run added to the trace. *)
Definition newEvents (w w' : World) : list Event :=
  skipn (List.length (trace w)) (trace w').

(** The stored account [id] has a zero counter and no lock. *)
Definition lockoutCleared (id : ObjectId) (db : list Author) : Prop :=
  exists d, lookupById id db = Some d /\
            loginAttempts d = Some 0 /\ lockUntil d = None.

(* ===================================================================== *)
(** ** The other operations of the author service                        *)
(* ===================================================================== *)

(** http-status *)
Definition BAD_REQUEST : Z := 400.
Definition NOT_FOUND : Z := 404.
Definition INTERNAL_SERVER_ERROR : Z := 500.

(** The filter [{ _id: id, isDeleted: { $ne: true } }]. *)
Definition matchesUndeleted (id : ObjectId) (a : Author) : bool :=
  (_id a =? id)%N && negb (Bool.eqb (isDeleted a) true).

(** [try { c } catch (error) { h error }]: what [c] did before it threw
    stays done. *)
Definition catch {A : Type} (c : M A) (h : Exception -> M A) : M A :=
  fun w =>
    match c w with
    | (Ok a, w') => (Ok a, w')
    | (Throw e, w') => h e w'
    end.

(** What the list endpoints are asked: the filters of [getAllAuthors] after
    the controller's [parseInt] and the route's validation ([page >= 1],
    [limit >= 1]). *)
Record AuthorFilters : Type := mkAuthorFilters {
  search : option string;
  filter_role : option string;
  filter_isActive : option bool;
  page : option positive;
  limit : option positive;
  sortBy : option string;
  sortOrder : option string
}.

Record Pagination : Type := mkPagination {
  total : N;
  pagination_page : positive;
  pagination_limit : positive;
  pages : N
}.

Record AuthorPage : Type := mkAuthorPage {
  page_authors : list Document;
  pagination : Pagination
}.

(** What the store does with a query: [$regex] with option [i], and the
    order of a [sort]. *)
Class QueryEngine : Type := {
  (** is the text a regular expression the store compiles; a query with
      another [$regex] is rejected *)
  regexValid : string -> bool;
  (** does the pattern match the text, case-insensitively *)
  regexMatchI : string -> string -> bool;
  (** [.sort({ [field]: direction })], [true] for descending *)
  sortAuthors : string -> bool -> list Author -> list Author
}.

Section AuthorService.

Context {P : Platform}.

(** [Author.findOne({ _id: id, isDeleted: { $ne: true } })] *)
Definition findOne_id_undeleted (id : ObjectId) : M (option Document) :=
  db <- getAuthors ;;
  ret (option_map (fun a => hydrate (applySelect [] a))
         (find (matchesUndeleted id) db)).

Definition getAuthorById (id : ObjectId) : M Document :=
  found <- findOne_id_undeleted id ;;
  match found with
  | None => throw (ApiError NOT_FOUND "Author not found")
  | Some author0 => ret author0
  end.

(** [Author.findByIdAndUpdate(id, update, { new: true })]: the first
    document with this [_id] is rewritten and returned as it is after the
    update; [null] when there is none. *)
Definition findByIdAndUpdate (id : ObjectId) (update : Author -> Author)
  : M (option Document) :=
  db <- getAuthors ;;
  match lookupById id db with
  | None => ret None
  | Some stored =>
      putAuthors (updateById id update db) ;;;
      emit (EvUpdateOne id) ;;;
      ret (Some (hydrate (applySelect [] (update stored))))
  end.

Definition deleteAuthorById (id : ObjectId) : M (option Document) :=
  found <- findOne_id_undeleted id ;;
  match found with
  | None => throw (ApiError NOT_FOUND "Author not found")
  | Some _ => findByIdAndUpdate id (with_isDeleted true)
  end.

(** [{ $unset: { refreshToken: "" }, $set: { lastActive: new Date() } }] *)
Definition logoutUpdate (t : Date) (a : Author) : Author :=
  with_lastActive (Some t) (with_refreshToken None a).

Definition logoutAuthor (authorId : ObjectId) : M unit :=
  catch
    (t <- now ;;
     found <- findByIdAndUpdate authorId (logoutUpdate t) ;;
     match found with
     | None => throw (ApiError NOT_FOUND "Author not found")
     | Some _ => ret tt
     end)
    (fun _ => throw (ApiError INTERNAL_SERVER_ERROR "Logout failed")).

Context {Q : QueryEngine}.

(** The query [getAllAuthors] builds from its filters. *)
Definition listQuery (f : AuthorFilters) (a : Author) : bool :=
  negb (Bool.eqb (isDeleted a) true) &&
  match search f with
  | Some s =>
      if (s =? "")%string then true
      else regexMatchI s (firstName a) || regexMatchI s (lastName a)
           || regexMatchI s (email a)
  | None => true
  end &&
  match filter_role f with
  | Some r => if (r =? "")%string then true else (role a =? r)%string
  | None => true
  end &&
  match filter_isActive f with
  | Some b => Bool.eqb (isActive a) b
  | None => true
  end.

(** The store compiles the [$regex] of the query, which is the raw
    [search] text, before it looks at any document. *)
Definition queryAccepted (f : AuthorFilters) : bool :=
  match search f with
  | Some s => if (s =? "")%string then true else regexValid s
  | None => true
  end.

Definition pageOf (f : AuthorFilters) : positive :=
  match page f with Some p => p | None => 1%positive end.

Definition limitOf (f : AuthorFilters) : positive :=
  match limit f with Some l => l | None => 10%positive end.

(** [Math.ceil(total / limit)] *)
Definition pageCount (n : N) (l : positive) : N :=
  ((n + Npos l - 1) / Npos l)%N.

Definition getAllAuthors (f : AuthorFilters) : M AuthorPage :=
  let skip := ((Npos (pageOf f) - 1) * Npos (limitOf f))%N in
  let field := match sortBy f with Some s => s | None => "createdAt" end in
  let descending :=
    match sortOrder f with
    | Some o => (o =? "desc")%string
    | None => true
    end in
  db <- getAuthors ;;
  if negb (queryAccepted f)
  then throw (MongoServerError "Regular expression is invalid")
  else
    let matching := filter (listQuery f) db in
    let found :=
      firstn (N.to_nat (Npos (limitOf f)))
        (skipn (N.to_nat skip) (sortAuthors field descending matching)) in
    let count := N.of_nat (List.length matching) in
    ret (mkAuthorPage
           (map (fun a => hydrate (applySelect [] a)) found)
           (mkPagination count (pageOf f) (limitOf f)
              (pageCount count (limitOf f)))).

(** The authors [getAllAuthors] lists on page [p] of the filters [f]. *)
Definition authorsOnPage (f : AuthorFilters) (p : positive) (w : World)
  : list Document :=
  match getAllAuthors
          (mkAuthorFilters (search f) (filter_role f) (filter_isActive f)
             (Some p) (limit f) (sortBy f) (sortOrder f)) w with
  | (Ok r, _) => page_authors r
  | (Throw _, _) => []
  end.

(** Everything the filters select, in the order asked for, as loaded;
    nothing when the store rejects the query. *)
Definition allListed (f : AuthorFilters) (w : World) : list Document :=
  if queryAccepted f
  then
    map (fun a => hydrate (applySelect [] a))
      (sortAuthors
         match sortBy f with Some s => s | None => "createdAt" end
         match sortOrder f with Some o => (o =? "desc")%string | None => true end
         (filter (listQuery f) (authors w)))
  else [].

End AuthorService.

(* ===================================================================== *)
(** ** The news schema: unique post positions                            *)
(* ===================================================================== *)

Record Post : Type := mkPost {
  post_content : string;
  position : Z;
  subAdmin : ObjectId;
  post_status : string;
  media : option string;
  likes : Z
}.

(** [new Set(positions).size] *)
Definition setSize (positions : list Z) : nat :=
  List.length (nodup Z.eq_dec positions).

(** The [pre("save")] hook of the news schema: [None] is [next()], [Some m]
    is [next(new Error(m))]. *)
Definition newsPreSave (postsModified : bool) (posts : list Post)
  : option string :=
  if postsModified
  then
    let positions := map position posts in
    if negb (setSize positions =? List.length positions)%nat
    then Some "Post positions must be unique within a news item"
    else None
  else None.

(* ===================================================================== *)
(** ** The category schema: title and slug                               *)
(* ===================================================================== *)

(** A string as its UTF-16 code units. *)
Definition CodeUnit := N.
Definition JsString := list CodeUnit.

Definition HYPHEN : CodeUnit := 45%N.

(** The class [[a-z0-9]]. *)
Definition isSlugUnit (u : CodeUnit) : bool :=
  ((97 <=? u) && (u <=? 122) || (48 <=? u) && (u <=? 57))%N.

(** [.replace(/[^a-z0-9]+/g, "-")]: every maximal run of units outside the
    class becomes one hyphen; [inRun] says the previous unit was outside. *)
Fixpoint replaceRuns (inRun : bool) (s : JsString) : JsString :=
  match s with
  | [] => []
  | u :: rest =>
      if isSlugUnit u then u :: replaceRuns false rest
      else if inRun then replaceRuns true rest
      else HYPHEN :: replaceRuns true rest
  end.

Definition dropLeadingHyphen (s : JsString) : JsString :=
  match s with
  | u :: rest => if (u =? HYPHEN)%N then rest else s
  | [] => []
  end.

Fixpoint dropTrailingHyphen (s : JsString) : JsString :=
  match s with
  | [] => []
  | [u] => if (u =? HYPHEN)%N then [] else [u]
  | u :: rest => u :: dropTrailingHyphen rest
  end.

(** [.replace(/(^-|-$)/g, "")]: a hyphen at the start goes, then a hyphen
    at the end of what is left. *)
Definition trimHyphens (s : JsString) : JsString :=
  dropTrailingHyphen (dropLeadingHyphen s).

Section CategorySchema.

(** The engine's case mappings. *)
Variable toUpperCase : JsString -> JsString.
Variable toLowerCase : JsString -> JsString.

(** [title.charAt(0).toUpperCase() + title.slice(1)] *)
Definition capitalize (title : JsString) : JsString :=
  toUpperCase (firstn 1 title) ++ skipn 1 title.

Definition slugOf (title : JsString) : JsString :=
  trimHyphens (replaceRuns false (toLowerCase title)).

(** The [pre("save")] hook of the category schema on [(title, slug)]. *)
Definition categoryPreSave (titleModified : bool) (title slug : JsString)
  : JsString * JsString :=
  let title1 := if titleModified then capitalize title else title in
  let slug1 := if titleModified then slugOf title1 else slug in
  (title1, slug1).

End CategorySchema.

(** No two hyphens in a row. *)
Fixpoint noDoubleHyphen (s : JsString) : bool :=
  match s with
  | u :: rest =>
      match rest with
      | v :: _ => negb ((u =? HYPHEN)%N && (v =? HYPHEN)%N)
      | [] => true
      end && noDoubleHyphen rest
  | [] => true
  end.

Definition startsWithHyphen (s : JsString) : bool :=
  match s with
  | u :: _ => (u =? HYPHEN)%N
  | [] => false
  end.

Definition endsWithHyphen (s : JsString) : bool :=
  match s with
  | [] => false
  | _ :: _ => (last s 0 =? HYPHEN)%N
  end.

(** Nothing but [[a-z0-9]] and hyphens. *)
Definition slugUnits (s : JsString) : bool :=
  forallb (fun u => isSlugUnit u || (u =? HYPHEN)%N) s.

(** Only [[a-z0-9]] and single hyphens, and no hyphen at either end. *)
Definition wellFormedSlug (s : JsString) : bool :=
  slugUnits s && noDoubleHyphen s &&
  negb (startsWithHyphen s) && negb (endsWithHyphen s).

(** ASCII text as code units, for writing inputs down. *)
Fixpoint unitsOf (s : string) : JsString :=
  match s with
  | EmptyString => []
  | String.String c rest => Ascii.N_of_ascii c :: unitsOf rest
  end.

(** Case mappings on the ASCII letters, every other unit kept. *)
Definition asciiUpper (s : JsString) : JsString :=
  map (fun u => if ((97 <=? u) && (u <=? 122))%N then (u - 32)%N else u) s.

Definition asciiLower (s : JsString) : JsString :=
  map (fun u => if ((65 <=? u) && (u <=? 90))%N then (u + 32)%N else u) s.

(* ===================================================================== *)
(** ** What a login records                                              *)
(* ===================================================================== *)

Section LoginRecords.

Context {P : Platform}.

(** The history entry [recordLogin] pushes at the clock reading [n]. *)
Definition historyEntry (deviceInfo : DeviceInfo) (ip : string) (n : nat)
  : LoginEntry :=
  mkLoginEntry
    (match deviceInfo with
     | DeviceString s => s
     | DeviceObject json => json
     end)
    ip (Date_now n).

(** The clock readings taken once the lock test of [findByCredentials] is
    over. *)
Definition ticksAfterLockTest (a : Author) (w : World) : nat :=
  match lockUntil a with
  | Some _ => S (ticks w)
  | None => ticks w
  end.

End LoginRecords.

(* ===================================================================== *)
(** ** The media host: the public id of an uploaded file                 *)
(* ===================================================================== *)

(** [s.split(c)] for a one-character separator: never empty. *)
Fixpoint splitOn (c : Ascii.ascii) (s : string) : list string :=
  match s with
  | EmptyString => [EmptyString]
  | String.String x rest =>
      if Ascii.eqb x c then EmptyString :: splitOn c rest
      else match splitOn c rest with
           | p :: ps => String.String x p :: ps
           | [] => [String.String x EmptyString]
           end
  end.

(** [parts.join(c)] *)
Fixpoint joinWith (c : Ascii.ascii) (parts : list string) : string :=
  match parts with
  | [] => EmptyString
  | [p] => p
  | p :: ps => (p ++ String.String c (joinWith c ps))%string
  end.

(** [parts.indexOf(target)], [None] for -1. *)
Fixpoint indexOf (target : string) (parts : list string) : option nat :=
  match parts with
  | [] => None
  | p :: ps =>
      if (p =? target)%string then Some 0%nat
      else option_map S (indexOf target ps)
  end.

(** The character does not occur in the string. *)
Fixpoint freeOf (c : Ascii.ascii) (s : string) : bool :=
  match s with
  | EmptyString => true
  | String.String x rest => negb (Ascii.eqb x c) && freeOf c rest
  end.

(** [urlParts.slice(urlParts.indexOf('upload') + 2).join('/')] *)
Definition publicIdWithExtension (fileUrl : string) : string :=
  let urlParts := splitOn "/"%char fileUrl in
  let start :=
    match indexOf "upload" urlParts with
    | Some i => (i + 2)%nat
    | None => 1%nat          (* -1 + 2 *)
    end in
  joinWith "/"%char (skipn start urlParts).

(** [publicIdWithExtension.split('.')[0]] *)
Definition publicIdOf (fileUrl : string) : string :=
  hd EmptyString (splitOn "."%char (publicIdWithExtension fileUrl)).

Inductive CloudinaryOutcome : Type :=
| NothingToDelete                  (* [return;] on a falsy url *)
| Destroyed                        (* [return true] *)
| DeletionFailed (result : string).  (* the error thrown and re-thrown *)

(** [deleteFromCloudinary], over the uploader's [destroy]. *)
Definition deleteFromCloudinary (destroy : string -> string)
    (fileUrl : string) : CloudinaryOutcome :=
  if (fileUrl =? "")%string then NothingToDelete
  else
    let result := destroy (publicIdOf fileUrl) in
    if negb (result =? "ok")%string then DeletionFailed result
    else Destroyed.

(* ===================================================================== *)
(** ** A test platform, for evaluating the code on concrete inputs       *)
(* ===================================================================== *)

Module TestPlatform.

(** Decimal integer literals; anything else is [NaN]. *)
Definition parseDecimal (s : string) : Js.number :=
  match NilZero.int_of_string s with
  | Some d => Js.Num (Z.of_int d)
  | None => Js.NaN
  end.

(** A string of decimal milliseconds inside the range of [Date]. *)
Definition castDecimalDate (s : string) : option Date :=
  match parseDecimal s with
  | Js.Num n =>
      if (275761 <=? n) && (n <=? 8640000000000000) then Some n else None
  | Js.NaN => None
  end.

Definition hashOf (plain : string) : string := ("$2b$12$" ++ plain)%string.

(** A time span as [jwt.sign] takes it: decimal digits, then at most one
    of the units [s], [m], [h], [d]. *)
Fixpoint isTimespan (seenDigit : bool) (s : string) : bool :=
  match s with
  | EmptyString => seenDigit
  | String.String c rest =>
      if isDigit c then isTimespan true rest
      else seenDigit && (rest =? "")%string
           && existsb (Ascii.eqb c) ["s"; "m"; "h"; "d"]%char
  end.

(** [jwt.sign] throws without a secret and without a time span for
    [expiresIn]. *)
Definition sign (p : TokenPayload) (secret expiry : option string) (n : nat)
  : option string :=
  match secret, expiry with
  | Some k, Some e =>
      if negb (k =? "")%string && isTimespan false e
      then
        Some match p with
             | AccessPayload id _ _ =>
                 ("access." ++ NilZero.string_of_int (Z.to_int (Z.of_N id)))%string
             | RefreshPayload id =>
                 ("refresh." ++ NilZero.string_of_int (Z.to_int (Z.of_N id)))%string
             end
      else None
  | _, _ => None
  end.

Fixpoint contains (c : Ascii.ascii) (s : string) : bool :=
  match s with
  | EmptyString => false
  | String.String x rest => Ascii.eqb x c || contains c rest
  end.

Definition isSpace (c : Ascii.ascii) : bool :=
  let n := Ascii.N_of_ascii c in
  ((9 <=? n) && (n <=? 13) || (n =? 32) || (n =? 160))%N.

(** An address for tests: [local@domain] with a dot in the domain and no
    white space. *)
Fixpoint isAddress (seenLocal : bool) (s : string) : bool :=
  match s with
  | EmptyString => false
  | String.String c rest =>
      if Ascii.eqb c "@"%char
      then seenLocal && contains "."%char rest
           && negb (contains "@"%char rest)
           && allChars (fun x => negb (isSpace x)) rest
      else negb (isSpace c) && isAddress true rest
  end.

(** A URL for tests: [http://] or [https://], then text without white
    space. *)
Definition isHttpUrl (s : string) : bool :=
  (String.prefix "https://" s && (8 <? String.length s)%nat
   || String.prefix "http://" s && (7 <? String.length s)%nat)
  && allChars (fun x => negb (isSpace x)) s.

(** Lower case of a code unit below 256. *)
Definition lowerChar (c : Ascii.ascii) : Ascii.ascii :=
  let n := Ascii.N_of_ascii c in
  if ((65 <=? n) && (n <=? 90) || (192 <=? n) && (n <=? 214)
      || (216 <=? n) && (n <=? 222))%N
  then Ascii.ascii_of_N (n + 32) else c.

Fixpoint lower (s : string) : string :=
  match s with
  | EmptyString => EmptyString
  | String.String c rest => String.String (lowerChar c) (lower rest)
  end.

Fixpoint trimStart (s : string) : string :=
  match s with
  | EmptyString => EmptyString
  | String.String c rest => if isSpace c then trimStart rest else s
  end.

Fixpoint trimEnd (s : string) : string :=
  match s with
  | EmptyString => EmptyString
  | String.String c rest =>
      match trimEnd rest with
      | EmptyString => if isSpace c then EmptyString
                       else String.String c EmptyString
      | t => String.String c t
      end
  end.

Definition make (env : string -> option string) (clock : nat -> Z)
    (verify : string -> JwtVerifyResult) : Platform :=
  {| process_env := env;
     Date_now := clock;
     StringToNumber := parseDecimal;
     bcrypt_compare := fun candidate h => (h =? hashOf candidate)%string;
     bcrypt_hash := fun plain _ => hashOf plain;
     jwt_sign := sign;
     jwt_verify := fun tok _ => verify tok;
     castDateString := castDecimalDate;
     validator_isEmail := isAddress false;
     validator_isURL := isHttpUrl;
     String_toLowerCase := lower;
     String_trim := fun s => trimEnd (trimStart s) |}.

(** Token secrets and expiries configured, lockout settings absent. *)
Definition envDefault (k : string) : option string :=
  if (k =? "ACCESS_TOKEN_SECRET")%string then Some "s3cret"
  else if (k =? "ACCESS_TOKEN_EXPIRY")%string then Some "15m"
  else if (k =? "REFRESH_TOKEN_SECRET")%string then Some "r3fresh"
  else if (k =? "REFRESH_TOKEN_EXPIRY")%string then Some "7d"
  else None.

(** As [envDefault], with [MAX_LOGIN_ATTEMPTS=5]. *)
Definition envThreshold5 (k : string) : option string :=
  if (k =? "MAX_LOGIN_ATTEMPTS")%string then Some "5" else envDefault k.

(** A clock started at 2023-11-14T22:13:20Z, one millisecond a reading. *)
Definition clock (n : nat) : Z := 1700000000000 + Z.of_nat n.

Definition noTokens (tok : string) : JwtVerifyResult :=
  VerifyError "JsonWebTokenError".

Definition alice : Author :=
  {| _id := 7%N; firstName := "Alice"; lastName := "Rao";
     email := "alice@example.com"; phone := "9876543210";
     password := Some (hashOf "correct horse");
     passwordChangedAt := Some 1690000000000;
     avatar := "https://cdn.example.com/avatars/alice.png";
     coverImage := "https://cdn.example.com/covers/alice.png";
     role := "author"; bio := "";
     socialLinks := mkSocialLinks None None None None;
     loginHistory := [];
     loginAttempts := Some 0; lockUntil := None;
     isVerified := true; isActive := true;
     refreshToken := None; lastActive := None;
     isDeleted := false; deletedAt := None; deletedBy := None |}.

Definition world (db : list Author) : World := mkWorld db 0 [].

(** Alice after a lock that still has an hour to run. *)
Definition aliceLocked : Author :=
  with_lockUntil (Some (1700000000000 + 3600000))
    (with_loginAttempts (Some 5) alice).

Definition aliceInactive : Author := with_isActive false alice.


(** Alice soft-deleted, as [deleteAuthorById] leaves her. *)
Definition aliceDeleted : Author := with_isDeleted true alice.

(** Alice with three failures on record and a lock that has run out. *)
Definition aliceStale : Author :=
  with_lockUntil (Some 1699990000000) (with_loginAttempts (Some 3) alice).

(** A bearer token for Alice issued at 2023-07-22T04:10:00Z (1689999000 in
    seconds), a quarter of an hour before her [passwordChangedAt]. *)
Definition oldToken (tok : string) : JwtVerifyResult :=
  if (tok =? "alice.before-change")%string
  then Decoded (mkDecodedToken 7%N (Js.Number (Js.Num 1689999000)))
  else VerifyError "JsonWebTokenError".

Definition requestWithOldToken : Request :=
  mkRequest None (Some "Bearer alice.before-change").

Definition firefox : DeviceInfo := DeviceString "Firefox".

Definition P0 : Platform := make envDefault clock noTokens.

(** Ten minutes after Alice changed her password. *)
Definition clockAfterChange (n : nat) : Z := 1690000600000 + Z.of_nat n.

Definition PJ : Platform := make envDefault clockAfterChange oldToken.

Definition P5 : Platform := make envThreshold5 clock noTokens.

End TestPlatform.

(* ===================================================================== *)
(** ** More inputs for evaluating the code                               *)
(* ===================================================================== *)

Module Fixtures.

(** A query engine for tests: a pattern matches a text that starts with
    it; sorting keeps the stored order, reversed when descending. *)
Definition testEngine : QueryEngine :=
  {| regexValid := fun pattern => negb (TestPlatform.contains "("%char pattern);
     regexMatchI := fun pattern text => String.prefix pattern text;
     sortAuthors := fun _ descending l => if descending then rev l else l |}.

Definition bob : Author :=
  {| _id := 8%N; firstName := "Bob"; lastName := "Iyer";
     email := "bob@example.com"; phone := "9876543211";
     password := Some (TestPlatform.hashOf "hunter22");
     passwordChangedAt := Some 1690000000000;
     avatar := "https://cdn.example.com/avatars/bob.png";
     coverImage := "https://cdn.example.com/covers/bob.png";
     role := "author"; bio := "";
     socialLinks := mkSocialLinks None None None None;
     loginHistory := [];
     loginAttempts := Some 0; lockUntil := None;
     isVerified := true; isActive := true;
     refreshToken := Some "refresh.8"; lastActive := None;
     isDeleted := false; deletedAt := None; deletedBy := None |}.

Definition carol : Author :=
  {| _id := 9%N; firstName := "Carol"; lastName := "Das";
     email := "carol@example.com"; phone := "9876543212";
     password := Some (TestPlatform.hashOf "tr0ub4dor");
     passwordChangedAt := Some 1690000000000;
     avatar := "https://cdn.example.com/avatars/carol.png";
     coverImage := "https://cdn.example.com/covers/carol.png";
     role := "admin"; bio := "";
     socialLinks := mkSocialLinks None None None None;
     loginHistory := [];
     loginAttempts := Some 0; lockUntil := None;
     isVerified := true; isActive := true;
     refreshToken := None; lastActive := None;
     isDeleted := false; deletedAt := None; deletedBy := None |}.

Definition newsroom : World :=
  TestPlatform.world [TestPlatform.alice; bob; carol].

(** Two authors to a page, everything else left to the defaults. *)
Definition twoPerPage : AuthorFilters :=
  mkAuthorFilters None None None None (Some 2%positive) None None.

Definition post (p : Z) : Post := mkPost "text" p 8%N "Draft" None 0.

(** ["Breaking: News & Views!"] as code units. *)
Definition headline : JsString := unitsOf "Breaking: News & Views!".

Definition mediaUrl : string :=
  "http://res.cloudinary.com/demo/image/upload/v1712345678/category_images/sports.jpg".

End Fixtures.

(* ===================================================================== *)
(** ** Basic facts about the collection and the projections               *)
(* ===================================================================== *)

Lemma lookupById_updateById (id : ObjectId) (f : Author -> Author)
    (db : list Author) :
  (forall a, _id (f a) = _id a) ->
  lookupById id (updateById id f db) = option_map f (lookupById id db).
Proof.
  intros Hid. unfold lookupById.
  induction db as [|a rest IH]; simpl; [reflexivity|].
  destruct (N.eqb_spec (_id a) id) as [E|E]; simpl.
  - rewrite Hid. rewrite E, N.eqb_refl. reflexivity.
  - destruct (N.eqb_spec (_id a) id); [contradiction|]. exact IH.
Qed.

Lemma find_matchesLogin_isActive {P : Platform} (mail : string)
    (db : list Author) (a : Author) :
  find (matchesLogin mail) db = Some a -> isActive a = true.
Proof.
  intros H. apply find_some in H. destruct H as [_ H].
  unfold matchesLogin in H. apply andb_true_iff in H. destruct H as [_ H].
  destruct (isActive a); [reflexivity|discriminate].
Qed.

(* ===================================================================== *)
(** ** Lockout policy                                                    *)
(* ===================================================================== *)

Section LockoutFacts.

Context {P : Platform}.

Lemma isAccountLocked_set (this : Author) (u : Date) (w : World) :
  lockUntil this = Some u ->
  isAccountLocked this w
  = (Ok (Date_now (ticks w) <? u),
     mkWorld (authors w) (S (ticks w)) (trace w)).
Proof. intros H. unfold isAccountLocked. rewrite H. reflexivity. Qed.

(** [x >= y || 5] is [true] or [5]: the test of the lock branch never
    fails, whatever the counter and the configured threshold are. *)
Lemma thresholdCondition_truthy (this : Author) :
  Js.truthy (thresholdCondition this) = true.
Proof.
  unfold thresholdCondition, Js.or.
  destruct (Js.truthy (Js.Boolean _)) eqn:E; [exact E|reflexivity].
Qed.

(** With [LOCK_TIME] absent the sum is [NaN] and the fallback is the
    whole value: two hours after the epoch, not after the present. *)
Lemma lockUntilValue_unset (t : Z) :
  process_env "LOCK_TIME" = None ->
  lockUntilValue t = Js.Number (Js.Num 7200000).
Proof. intros H. unfold lockUntilValue. rewrite H. reflexivity. Qed.

(** With [LOCK_TIME] present the sum is a concatenation of digits with
    the configured text. *)
Lemma lockUntilValue_set (t : Z) (s : string) :
  process_env "LOCK_TIME" = Some s ->
  lockUntilValue t
  = Js.or (Js.String (Js.NumberToString (Js.Num t) ++ s)%string)
      (Js.Number (Js.Num 7200000)).
Proof. intros H. unfold lockUntilValue. rewrite H. reflexivity. Qed.

End LockoutFacts.

(* ===================================================================== *)
(** ** Frame and rejection while locked                                  *)
(* ===================================================================== *)

Section WhileLocked.

Context {P : Platform}.

(** C9. While the account is locked ([lockUntil] set and later than the
    clock reading), [incrementLoginAttempts] returns without any update:
    the collection, hence [loginAttempts], [lockUntil] and every other
    field of every stored account, is unchanged and no write is issued. *)
Theorem incrementLoginAttempts_locked_is_noop
    (this : Document) (u : Date) (w : World) :
  lockUntil this = Some u ->
  Date_now (ticks w) < u ->
  fst (incrementLoginAttempts this w) = Ok tt /\
  authors (snd (incrementLoginAttempts this w)) = authors w /\
  trace (snd (incrementLoginAttempts this w)) = trace w.
Proof.
  intros Hset Hfuture.
  unfold incrementLoginAttempts, bind.
  rewrite (isAccountLocked_set this u w Hset).
  apply Z.ltb_lt in Hfuture. rewrite Hfuture.
  repeat split.
Qed.

Lemma findByCredentials_locked (mail pass : string) (a : Author) (u : Date)
    (w : World) :
  find (matchesLogin mail) (authors w) = Some a ->
  lockUntil a = Some u ->
  Date_now (ticks w) < u ->
  findByCredentials mail pass w
  = (Ok None,
     mkWorld (authors w) (S (ticks w))
       (trace w ++ [EvGate GateExists true; EvGate GateNotLocked false])).
Proof.
  intros Hfind Hset Hfuture.
  unfold findByCredentials, findOne_email_isActive, bind, getAuthors, ret.
  rewrite Hfind. cbn [option_map emit].
  rewrite (isAccountLocked_set _ u) by exact Hset.
  cbn [ticks authors trace].
  apply Z.ltb_lt in Hfuture. rewrite Hfuture.
  cbn. rewrite <- app_assoc. reflexivity.
Qed.

(** C6. For an account locked until a time still in the future, a login
    attempt is rejected at once, whatever password was submitted: the
    password hasher is not invoked and nothing is written. *)
Theorem login_locked_rejected_without_hasher
    (mail pass : string) (deviceInfo : DeviceInfo) (ip : string)
    (a : Author) (u : Date) (w : World) :
  find (matchesLogin mail) (authors w) = Some a ->
  lockUntil a = Some u ->
  Date_now (ticks w) < u ->
  fst (loginAuthor mail pass deviceInfo ip w) = Throw invalidCredentials /\
  hasherCalls (trace (snd (loginAuthor mail pass deviceInfo ip w)))
  = hasherCalls (trace w) /\
  authors (snd (loginAuthor mail pass deviceInfo ip w)) = authors w.
Proof.
  intros Hfind Hset Hfuture.
  unfold loginAuthor, bind.
  rewrite (findByCredentials_locked mail pass a u w Hfind Hset Hfuture).
  cbn [fst snd throw authors trace].
  repeat split.
  unfold hasherCalls. rewrite filter_app. cbn. now rewrite app_nil_r.
Qed.

End WhileLocked.

(* ===================================================================== *)
(** ** Password change and the bearer-token middleware                   *)
(* ===================================================================== *)

Section PasswordChange.

Context {P : Platform}.

(** On a document that carries [passwordChangedAt], the method compares
    in whole seconds. *)
Lemma changedPasswordAfter_set (this : Author) (t : Date) (issued : Z) :
  passwordChangedAt this = Some t ->
  changedPasswordAfter this (Js.Number (Js.Num issued))
  = (issued <? Z.quot t 1000).
Proof. intros H. unfold changedPasswordAfter. rewrite H. reflexivity. Qed.

Lemma changedPasswordAfter_unset (this : Author) (JWTTimestamp : Js.value) :
  passwordChangedAt this = None ->
  changedPasswordAfter this JWTTimestamp = false.
Proof. intros H. unfold changedPasswordAfter. rewrite H. reflexivity. Qed.

Lemma applySelect_passwordChangedAt_unset (plus : list HiddenPath)
    (a : Author) :
  passwordChangedAt a = None ->
  passwordChangedAt (applySelect plus a) = None.
Proof.
  intros H. cbn. rewrite H. now destruct (selected plus P_passwordChangedAt).
Qed.

(** The query of [verifyJWT] names no path with [+], so the document it
    loads never carries [passwordChangedAt] and the password-change test
    cannot fire. *)
Lemma verifyJWT_never_rejects_for_password_change (req : Request) (w : World) :
  fst (verifyJWT req w) <> Throw (ApiError 401 passwordChangedMessage).
Proof.
  unfold verifyJWT, passwordChangedMessage.
  destruct (negb (Js.truthy (bearerToken req))); [cbn; discriminate|].
  destruct (jwt_verify _ _) as [tok|name].
  - unfold findById, bind, getAuthors, ret.
    destruct (lookupById (token_id tok) (authors w)) as [a|];
      cbn [option_map].
    + destruct (isDeleted _); [cbn; discriminate|].
      rewrite changedPasswordAfter_unset by reflexivity.
      cbn. discriminate.
    + cbn; discriminate.
  - destruct (name =? "TokenExpiredError")%string; [cbn; discriminate|].
    destruct (name =? "JsonWebTokenError")%string; cbn; discriminate.
Qed.

(** C10. For an account with no [passwordChangedAt],
    [changedPasswordAfter] answers [false] for every token timestamp, and
    [verifyJWT] never rejects a token naming that account on
    password-change grounds. *)
Theorem no_passwordChangedAt_never_rejected
    (this : Author) (JWTTimestamp : Js.value) (req : Request) (w : World) :
  passwordChangedAt this = None ->
  changedPasswordAfter this JWTTimestamp = false /\
  ((forall tok,
       jwt_verify (Js.ToString (bearerToken req))
         (process_env "ACCESS_TOKEN_SECRET") = Decoded tok ->
       lookupById (token_id tok) (authors w) = Some this) ->
   fst (verifyJWT req w) <> Throw (ApiError 401 passwordChangedMessage)).
Proof.
  intros Hunset. split; [exact (changedPasswordAfter_unset _ _ Hunset)|].
  intros Hnames.
  unfold verifyJWT, passwordChangedMessage.
  destruct (negb (Js.truthy (bearerToken req))); [cbn; discriminate|].
  destruct (jwt_verify _ _) as [tok|name] eqn:Hverify.
  - unfold findById, bind, getAuthors, ret.
    rewrite (Hnames tok eq_refl). cbn [option_map].
    destruct (isDeleted _); [cbn; discriminate|].
    rewrite changedPasswordAfter_unset; [cbn; discriminate|].
    apply applySelect_passwordChangedAt_unset. exact Hunset.
  - destruct (name =? "TokenExpiredError")%string; [cbn; discriminate|].
    destruct (name =? "JsonWebTokenError")%string; cbn; discriminate.
Qed.

End PasswordChange.

(* ===================================================================== *)
(** ** Successful login resets the lockout state                         *)
(* ===================================================================== *)

Section SuccessfulLogin.

Context {P : Platform}.

Lemma resetLoginAttempts_run (this : Document) (w : World) :
resetLoginAttempts this w
= (Ok tt,
   mkWorld
     (updateById (_id this)
        (fun a => with_lockUntil None (with_loginAttempts (Some 0) a))
        (authors w))
     (ticks w) (trace w ++ [EvUpdateOne (_id this)])).
Proof. reflexivity. Qed.

Lemma persistPath_lockout (this : Author) (paths : list ModifiedPath)
  (stored : Author) :
let s := fold_right (persistPath this) stored paths in
_id s = _id stored /\ loginAttempts s = loginAttempts stored /\
lockUntil s = lockUntil stored.
Proof.
induction paths as [|p paths IH]; cbn; [auto|].
destruct IH as (I1 & I2 & I3). destruct p; cbn; auto.
Qed.

(** A [save] that returns has passed the validation. *)
Lemma save_ok_validated (this d : Document) (w w' : World) :
save this w = (Ok d, w') ->
validationFailures this = [] /\ saveValidated this w = (Ok d, w').
Proof.
unfold save. destruct (validationFailures this); [auto|discriminate].
Qed.


Lemma saveValidated_run (this : Document) (w : World) :
isModified M_password this = false ->
saveValidated this w
= match lookupById (_id this) (authors w) with
  | None => (Throw DocumentNotFoundError, w)
  | Some _ =>
      (Ok (mkDocument (fields this) [] (selection this)),
       mkWorld
         (updateById (_id this)
            (fun stored => fold_right (persistPath this) stored (modified this))
            (authors w))
         (ticks w) (trace w ++ [EvSave (_id this)]))
  end.
Proof.
intros H. unfold saveValidated. rewrite H. cbn [negb].
unfold bind, ret, getAuthors, putAuthors, emit, throw.
destruct (lookupById (_id this) (authors w)); reflexivity.
Qed.

Lemma save_run (this : Document) (w : World) :
isModified M_password this = false ->
save this w
= match validationFailures this with
  | [] =>
      match lookupById (_id this) (authors w) with
      | None => (Throw DocumentNotFoundError, w)
      | Some _ =>
          (Ok (mkDocument (fields this) [] (selection this)),
           mkWorld
             (updateById (_id this)
                (fun stored =>
                   fold_right (persistPath this) stored (modified this))
                (authors w))
             (ticks w) (trace w ++ [EvSave (_id this)]))
      end
  | failed => (Throw (ValidationError failed), w)
  end.
Proof.
intros H. unfold save.
destruct (validationFailures this); [exact (saveValidated_run this w H)|].
reflexivity.
Qed.

(** [save] of a document whose password is untouched keeps a cleared
  lockout state cleared. *)
Lemma save_keeps_lockoutCleared (this d : Document) (w w' : World) :
isModified M_password this = false ->
save this w = (Ok d, w') ->
lockoutCleared (_id this) (authors w) ->
_id d = _id this /\ lockoutCleared (_id this) (authors w').
Proof.
intros Hmod Hsave (s & Hs & Hn & Hl).
apply save_ok_validated in Hsave. destruct Hsave as [_ Hsave].
rewrite (saveValidated_run this w Hmod), Hs in Hsave.
injection Hsave as <- <-. split; [reflexivity|].
cbn [authors].
exists (fold_right (persistPath this) s (modified this)).
rewrite lookupById_updateById, Hs.
- destruct (persistPath_lockout this (modified this) s) as (_ & E2 & E3).
  cbn in E2, E3. rewrite E2, E3. auto.
- intros a. apply (persistPath_lockout this (modified this) a).
Qed.

Lemma findByCredentials_success (mail pass : string) (d : Document)
  (w w1 : World) :
findByCredentials mail pass w = (Ok (Some d), w1) ->
modified d = [] /\
isActive d = true /\
authors w1
= updateById (_id d)
    (fun a => with_lockUntil None (with_loginAttempts (Some 0) a))
    (authors w).
Proof.
unfold findByCredentials, findOne_email_isActive, bind, getAuthors, ret.
destruct (find (matchesLogin mail) (authors w)) as [a|] eqn:Hfind;
  cbn [option_map emit]; [|discriminate].
destruct (isAccountLocked _ _) as [[locked|e] w2] eqn:Hlock; [|discriminate].
assert (Hw2 : authors w2 = authors w).
{ unfold isAccountLocked in Hlock.
  destruct (lockUntil _); cbn in Hlock; injection Hlock as _ <-; reflexivity. }
cbn [emit]. destruct locked; cbn [negb]; [discriminate|].
unfold comparePassword, bind, emit, ret, throw.
cbn [password fields load applySelect selected existsb HiddenPath_eqb orb].
destruct (password a) as [h|]; [|discriminate].
destruct (bcrypt_compare pass h); cbn [negb].
- rewrite resetLoginAttempts_run. cbn [authors ticks trace].
  intros H. injection H as <- <-. cbn [authors]. rewrite Hw2.
  repeat split. cbn. exact (find_matchesLogin_isActive _ _ _ Hfind).
- destruct (incrementLoginAttempts _ _) as [[?|?] ?]; discriminate.
Qed.

Lemma reset_then_found (id : ObjectId) (db : list Author) (s : Author) :
lookupById id
  (updateById id
     (fun a => with_lockUntil None (with_loginAttempts (Some 0) a)) db)
= Some s ->
loginAttempts s = Some 0 /\ lockUntil s = None.
Proof.
rewrite lookupById_updateById by reflexivity.
destruct (lookupById id db); cbn; [|discriminate].
intros H. injection H as <-. split; reflexivity.
Qed.

Lemma save_ok_found (this d : Document) (w w' : World) :
isModified M_password this = false ->
save this w = (Ok d, w') ->
exists s, lookupById (_id this) (authors w) = Some s.
Proof.
intros Hmod Hsave.
apply save_ok_validated in Hsave. destruct Hsave as [_ Hsave].
rewrite (saveValidated_run this w Hmod) in Hsave.
destruct (lookupById (_id this) (authors w)) as [s|]; [|discriminate].
now exists s.
Qed.

Lemma generateAccessToken_authors (this : Document) (t : string) (w w' : World) :
generateAccessToken this w = (Ok t, w') -> authors w' = authors w.
Proof.
unfold generateAccessToken, bind, getTicks, emit, ret, throw.
destruct (jwt_sign _ _ _ _); [|discriminate].
intros H. injection H as _ <-. reflexivity.
Qed.

Lemma generateRefreshToken_authors (this : Document) (t : string) (w w' : World) :
generateRefreshToken this w = (Ok t, w') -> authors w' = authors w.
Proof.
unfold generateRefreshToken, bind, getTicks, emit, ret, throw.
destruct (jwt_sign _ _ _ _); [|discriminate].
intros H. injection H as _ <-. reflexivity.
Qed.

(** C7. Every successful login leaves the stored account with
  [loginAttempts] 0 and [lockUntil] null, whatever the counter and the
  lock were before. *)
Theorem successful_login_clears_lockout
  (mail pass : string) (deviceInfo : DeviceInfo) (ip : string)
  (w w' : World) (res : LoginResult) :
loginAuthor mail pass deviceInfo ip w = (Ok res, w') ->
lockoutCleared (view_id (author res)) (authors w').
Proof.
unfold loginAuthor. unfold bind at 1.
destruct (findByCredentials mail pass w) as [[[d|]|e] w1] eqn:Hfc;
  [|discriminate|discriminate].
destruct (findByCredentials_success _ _ _ _ _ Hfc) as (Hmod & Hact & Hdb).
unfold bind at 1. cbn [emit]. rewrite Hact. cbn [negb].
unfold bind at 1. cbn [emit].
destruct (isVerified d); cbn [negb]; [|discriminate].
unfold bind at 1.
destruct (recordLogin d deviceInfo ip _) as [[d1|e] w2] eqn:Hrec;
  [|discriminate].
unfold recordLogin, bind, now in Hrec. cbn [ticks authors trace] in Hrec.
match type of Hrec with save ?t ?w0 = _ =>
  assert (Hm1 : isModified M_password t = false)
    by (unfold isModified; cbn; rewrite Hmod; reflexivity);
  destruct (save_ok_found t d1 w0 w2 Hm1 Hrec) as (s & Hs);
  destruct (save_keeps_lockoutCleared t d1 w0 w2 Hm1 Hrec) as (Hid1 & Hc1)
end.
{ exists s. cbn [authors fields assign _id] in Hs |- *.
  split; [exact Hs|]. rewrite Hdb in Hs. exact (reset_then_found _ _ _ Hs). }
cbn [fields assign _id with_lastActive with_loginHistory] in Hid1, Hc1.
unfold bind at 1.
destruct (generateAccessToken d1 w2) as [[access|e] w3] eqn:Hacc;
  [|discriminate].
unfold bind at 1.
destruct (generateRefreshToken d1 w3) as [[refresh|e] w4] eqn:Href;
  [|discriminate].
unfold bind at 1.
destruct (save _ w4) as [[d2|e] w5] eqn:Hsave; [|discriminate].
unfold ret. intros H. injection H as <- <-. cbn [author view_id].
match type of Hsave with save ?t ?w0 = _ =>
  assert (Hm2 : isModified M_password t = false)
end.
{ unfold isModified; cbn.
  unfold recordLogin in Hrec. clear - Hrec Hm1.
  apply save_ok_validated in Hrec. destruct Hrec as [_ Hrec].
  rewrite saveValidated_run in Hrec by exact Hm1.
  destruct (lookupById _ _); [|discriminate].
  injection Hrec as <- _. reflexivity. }
destruct (save_keeps_lockoutCleared _ _ _ _ Hm2 Hsave) as (Hid2 & Hc2).
- cbn [fields assign _id with_refreshToken].
  rewrite (generateRefreshToken_authors _ _ _ _ Href).
  rewrite (generateAccessToken_authors _ _ _ _ Hacc).
  rewrite Hid1. exact Hc1.
- cbn [fields assign _id with_refreshToken] in Hid2, Hc2.
  rewrite Hid2. exact Hc2.
Qed.

End SuccessfulLogin.

(* ===================================================================== *)
(** ** The gates of the login path                                       *)
(* ===================================================================== *)

Lemma newEvents_app (w w' : World) (ev : list Event) :
  trace w' = trace w ++ ev -> newEvents w w' = ev.
Proof.
  intros H. unfold newEvents. rewrite H.
  rewrite skipn_app, skipn_all, Nat.sub_diag. reflexivity.
Qed.

Lemma gateEvents_app (l l' : list Event) :
  gateEvents (l ++ l') = gateEvents l ++ gateEvents l'.
Proof. apply filter_app. Qed.


Lemma quiet_ret {A : Type} (a : A) : quiet (ret a).
Proof. intros w. exists []. cbn. now rewrite app_nil_r. Qed.

Lemma quiet_throw {A : Type} (e : Exception) : quiet (throw (A:=A) e).
Proof. intros w. exists []. cbn. now rewrite app_nil_r. Qed.

Lemma quiet_bind {A B : Type} (c : M A) (k : A -> M B) :
  quiet c -> (forall a, quiet (k a)) -> quiet (bind c k).
Proof.
  intros Hc Hk w. unfold bind.
  destruct (Hc w) as (ev1 & E1 & G1).
  destruct (c w) as [[a|e] w1]; cbn [snd] in *.
  - destruct (Hk a w1) as (ev2 & E2 & G2).
    exists (ev1 ++ ev2). rewrite E2, E1, app_assoc. split; [reflexivity|].
    now rewrite gateEvents_app, G1, G2.
  - exists ev1. auto.
Qed.

Lemma quiet_emit (e : Event) : isGateEvent e = false -> quiet (emit e).
Proof.
  intros H w. exists [e]. cbn. split; [reflexivity|].
  unfold gateEvents. cbn. now rewrite H.
Qed.

Lemma quiet_getAuthors : quiet getAuthors.
Proof. intros w. exists []. cbn. now rewrite app_nil_r. Qed.

Lemma quiet_putAuthors (db : list Author) : quiet (putAuthors db).
Proof. intros w. exists []. cbn. now rewrite app_nil_r. Qed.

Lemma quiet_getTicks : quiet getTicks.
Proof. intros w. exists []. cbn. now rewrite app_nil_r. Qed.

Create HintDb quiet.
#[export] Hint Resolve quiet_ret quiet_throw quiet_getAuthors quiet_putAuthors
  quiet_getTicks : quiet.
#[export] Hint Extern 1 (quiet (emit _)) =>
  (apply quiet_emit; reflexivity) : quiet.

(** One step through a sequence: the head is quiet by the hints, the
    continuation is what remains. *)
Ltac quiet_seq := apply quiet_bind; [solve [auto with quiet]|intro].

Section GateTrace.

Context {P : Platform}.

Lemma quiet_now : quiet now.
Proof. intros w. exists []. cbn. now rewrite app_nil_r. Qed.

Lemma quiet_isAccountLocked (this : Author) : quiet (isAccountLocked this).
Proof.
  unfold isAccountLocked. destruct (lockUntil this); [|auto with quiet].
  apply quiet_bind; [apply quiet_now|auto with quiet].
Qed.

Lemma quiet_updateOne (this : Document) (u : Update) : quiet (updateOne this u).
Proof.
  unfold updateOne.
  destruct (set_lockUntil u) as [v|]; [destruct (castDate v)|];
    try solve [auto with quiet]; do 2 quiet_seq; auto with quiet.
Qed.

Lemma quiet_incrementLoginAttempts (this : Document) :
  quiet (incrementLoginAttempts this).
Proof.
  unfold incrementLoginAttempts.
  apply quiet_bind; [apply quiet_isAccountLocked|intros locked].
  destruct locked; [auto with quiet|].
  destruct (Js.truthy _); [|apply quiet_updateOne].
  apply quiet_bind; [apply quiet_now|intros; apply quiet_updateOne].
Qed.

Lemma quiet_save (this : Document) : quiet (save this).
Proof.
  unfold save.
  destruct (validationFailures this); [|auto with quiet].
  unfold saveValidated.
  apply quiet_bind.
  - destruct (negb _); [auto with quiet|].
    quiet_seq. apply quiet_bind; [apply quiet_now|auto with quiet].
  - intros this1. quiet_seq.
    destruct (lookupById _ _); [|auto with quiet].
    do 2 quiet_seq. auto with quiet.
Qed.

Lemma quiet_recordLogin (this : Document) (deviceInfo : DeviceInfo)
    (ip : string) :
  quiet (recordLogin this deviceInfo ip).
Proof.
  unfold recordLogin.
  apply quiet_bind; [apply quiet_now|intros stamp].
  apply quiet_bind; [apply quiet_now|intros t]. apply quiet_save.
Qed.

Lemma quiet_generateAccessToken (this : Document) :
  quiet (generateAccessToken this).
Proof.
  unfold generateAccessToken. quiet_seq.
  destruct (jwt_sign _ _ _ _); [|auto with quiet].
  quiet_seq. auto with quiet.
Qed.

Lemma quiet_generateRefreshToken (this : Document) :
  quiet (generateRefreshToken this).
Proof.
  unfold generateRefreshToken. quiet_seq.
  destruct (jwt_sign _ _ _ _); [|auto with quiet].
  quiet_seq. auto with quiet.
Qed.

(** What follows the five gates once they all passed. *)
Lemma quiet_issueTokens (author0 : Document) (deviceInfo : DeviceInfo)
    (ip : string) :
  quiet
    (author1 <- recordLogin author0 deviceInfo ip ;;
     access <- generateAccessToken author1 ;;
     refresh <- generateRefreshToken author1 ;;
     author2 <- save (assign M_refreshToken
                        (with_refreshToken (Some refresh)) author1) ;;
     ret (mkLoginResult
            (mkAuthorView (_id author2) (firstName author2)
               (lastName author2) (email author2) (phone author2)
               (role author2) (avatar author2) (coverImage author2)
               (isVerified author2) (isActive author2)
               (lastActive author2))
            access refresh)).
Proof.
  apply quiet_bind; [apply quiet_recordLogin|intros author1].
  apply quiet_bind; [apply quiet_generateAccessToken|intros access].
  apply quiet_bind; [apply quiet_generateRefreshToken|intros refresh].
  apply quiet_bind; [apply quiet_save|intros author2]. apply quiet_ret.
Qed.

(** [findByCredentials], run: which branch is taken and what it leaves. *)
Lemma findByCredentials_run (mail pass : string) (w : World) :
  findByCredentials mail pass w
  = match find (matchesLogin mail) (authors w) with
    | None =>
        (Ok None,
         mkWorld (authors w) (ticks w) (trace w ++ [EvGate GateExists false]))
    | Some a =>
        let d := load [P_password; P_loginAttempts; P_lockUntil] a in
        let n := match lockUntil a with
                 | Some _ => S (ticks w)
                 | None => ticks w
                 end in
        if lockedAt (Date_now (ticks w)) a
        then (Ok None,
              mkWorld (authors w) n
                (trace w ++ [EvGate GateExists true; EvGate GateNotLocked false]))
        else
          match password a with
          | None =>
              (Throw BcryptError,
               mkWorld (authors w) n
                 (trace w ++ [EvGate GateExists true; EvGate GateNotLocked true;
                              EvBcryptCompare]))
          | Some h =>
              if bcrypt_compare pass h
              then (Ok (Some d),
                    mkWorld
                      (updateById (_id a)
                         (fun x => with_lockUntil None
                                     (with_loginAttempts (Some 0) x))
                         (authors w))
                      n
                      (trace w ++ [EvGate GateExists true;
                                   EvGate GateNotLocked true; EvBcryptCompare;
                                   EvGate GatePassword true;
                                   EvUpdateOne (_id a)]))
              else
                match incrementLoginAttempts d
                        (mkWorld (authors w) n
                           (trace w ++ [EvGate GateExists true;
                                        EvGate GateNotLocked true;
                                        EvBcryptCompare;
                                        EvGate GatePassword false])) with
                | (Ok _, w') => (Ok None, w')
                | (Throw e, w') => (Throw e, w')
                end
          end
    end.
Proof.
  unfold findByCredentials, findOne_email_isActive, bind, getAuthors, ret.
  destruct (find (matchesLogin mail) (authors w)) as [a|]; [|reflexivity].
  cbn [option_map emit]. unfold isAccountLocked, lockedAt.
  cbn [lockUntil fields hydrate load applySelect selected existsb HiddenPath_eqb orb].
  destruct (lockUntil a) as [u|];
    [unfold bind, now, ret; cbn [authors ticks trace];
     destruct (Date_now (ticks w) <? u);
     [cbn; rewrite <- app_assoc; reflexivity|]
    |unfold ret];
    (cbn [emit negb authors ticks trace];
     unfold comparePassword, bind, emit, ret, throw;
     cbn [password fields hydrate load applySelect selected existsb HiddenPath_eqb
          orb authors ticks trace];
     destruct (password a) as [h|];
     [destruct (bcrypt_compare pass h); cbn [negb];
      [rewrite resetLoginAttempts_run;
       cbn [authors ticks trace _id fields hydrate load applySelect]|];
      cbn [authors ticks trace]; repeat rewrite <- app_assoc; reflexivity
     |repeat rewrite <- app_assoc; reflexivity]).
Qed.

Lemma updateOne_result (this : Document) (u : Update) (w : World) :
  fst (updateOne this u w) = Ok tt \/
  (exists v, set_lockUntil u = Some v /\ castDate v = None /\
             fst (updateOne this u w) = Throw (CastError "lockUntil")).
Proof.
  unfold updateOne.
  destruct (set_lockUntil u) as [v|]; [destruct (castDate v) eqn:E|];
    cbn; auto.
  right. exists v. auto.
Qed.

(** [incrementLoginAttempts] fails only when the store rejects the
    lock-until value of some clock reading. *)
Lemma incrementLoginAttempts_result (this : Document) (w : World) :
  fst (incrementLoginAttempts this w) = Ok tt \/
  (exists n, castDate (lockUntilValue (Date_now n)) = None /\
             fst (incrementLoginAttempts this w)
             = Throw (CastError "lockUntil")).
Proof.
  unfold incrementLoginAttempts, bind.
  destruct (isAccountLocked this w) as [[locked|e] w1] eqn:Hlock.
  - destruct locked; [left; reflexivity|].
    destruct (Js.truthy _).
    + unfold now.
      match goal with |- context [updateOne ?d ?u ?w0] =>
        destruct (updateOne_result d u w0) as [R|(v & Hv & Hc & R)]
      end; [left; exact R|].
      right. exists (ticks w1). cbn in Hv. injection Hv as <-. auto.
    + match goal with |- context [updateOne ?d ?u ?w0] =>
        destruct (updateOne_result d u w0) as [R|(v & Hv & _)]
      end; [left; exact R|discriminate].
  - unfold isAccountLocked in Hlock.
    destruct (lockUntil this); discriminate.
Qed.

(** The run of [loginAuthor], seen through its gates: the gate events it
    adds are [codeGates], and a failed gate decides the error. *)
Lemma loginAuthor_gates (mail pass : string) (deviceInfo : DeviceInfo)
    (ip : string) (w : World) :
  exists ev,
    trace (snd (loginAuthor mail pass deviceInfo ip w)) = trace w ++ ev /\
    gateEvents ev = codeGates (authors w) (Date_now (ticks w)) mail pass /\
    (forall g,
        failedGate (codeGates (authors w) (Date_now (ticks w)) mail pass)
        = Some g ->
        fst (loginAuthor mail pass deviceInfo ip w) = Throw (gateError g) \/
        (g = GatePassword /\
         (exists n, castDate (lockUntilValue (Date_now n)) = None) /\
         fst (loginAuthor mail pass deviceInfo ip w)
         = Throw (CastError "lockUntil"))).
Proof.
  set (r := loginAuthor mail pass deviceInfo ip w).
  assert (Hr : r = loginAuthor mail pass deviceInfo ip w) by reflexivity.
  clearbody r.
  unfold loginAuthor in Hr. unfold bind at 1 in Hr.
  rewrite findByCredentials_run in Hr.
  unfold codeGates, gatesAfterLookup.
  destruct (find (matchesLogin mail) (authors w)) as [a|] eqn:Hfind.
  2: { subst r. exists [EvGate GateExists false]. cbn. repeat split.
       intros g Hg. injection Hg as <-. left. reflexivity. }
  cbn zeta in Hr.
  rewrite (find_matchesLogin_isActive _ _ _ Hfind). cbn [negb].
  destruct (lockedAt (Date_now (ticks w)) a).
  { subst r. exists [EvGate GateExists true; EvGate GateNotLocked false].
    cbn. repeat split. intros g Hg. injection Hg as <-. left. reflexivity. }
  destruct (password a) as [h|].
  2: { subst r.
       exists [EvGate GateExists true; EvGate GateNotLocked true;
               EvBcryptCompare].
       cbn. repeat split. intros g Hg. discriminate. }
  destruct (bcrypt_compare pass h).
  - unfold bind at 1 in Hr.
    cbn [emit fields hydrate load isActive applySelect] in Hr.
    rewrite (find_matchesLogin_isActive _ _ _ Hfind) in Hr. cbn [negb] in Hr.
    unfold bind at 1 in Hr. cbn [emit] in Hr.
    cbn [authors ticks trace] in Hr.
    change (isVerified (applySelect [P_password; P_loginAttempts; P_lockUntil] a))
      with (isVerified a) in Hr.
    destruct (isVerified a).
    + cbn [negb] in Hr.
      match type of Hr with _ = ?c ?w0 =>
        match c with bind (recordLogin ?d _ _) _ =>
          destruct (quiet_issueTokens d deviceInfo ip w0) as (ev & E & G)
        end
      end.
      rewrite <- Hr in E. cbn [trace] in E.
      exists ([EvGate GateExists true; EvGate GateNotLocked true;
               EvBcryptCompare; EvGate GatePassword true; EvUpdateOne (_id a);
               EvGate GateActive true; EvGate GateVerified true] ++ ev).
      split.
      * rewrite E. repeat rewrite <- app_assoc. reflexivity.
      * split; [|intros g Hg; discriminate].
        rewrite gateEvents_app, G. reflexivity.
    + subst r. cbn [negb throw snd fst trace].
      exists [EvGate GateExists true; EvGate GateNotLocked true;
              EvBcryptCompare; EvGate GatePassword true; EvUpdateOne (_id a);
              EvGate GateActive true; EvGate GateVerified false].
      split; [repeat rewrite <- app_assoc; reflexivity|].
      split; [reflexivity|].
      intros g Hg. injection Hg as <-. left. reflexivity.
  - cbn [negb] in Hr.
    match type of Hr with context [incrementLoginAttempts ?d ?w0] =>
      destruct (quiet_incrementLoginAttempts d w0) as (ev & E & G);
      destruct (incrementLoginAttempts_result d w0) as [R|(n & Hn & R)];
      destruct (incrementLoginAttempts d w0) as [[[]|e] w1]
    end; cbn [fst snd trace] in *; try discriminate; subst r;
      cbn [fst snd throw];
      exists ([EvGate GateExists true; EvGate GateNotLocked true;
               EvBcryptCompare; EvGate GatePassword false] ++ ev);
      (split; [rewrite E; repeat rewrite <- app_assoc; reflexivity|]);
      (split; [rewrite gateEvents_app, G; reflexivity|]);
      intros g Hg; injection Hg as <-.
    + left. reflexivity.
    + right. split; [reflexivity|]. split; [now exists n|].
      injection R as ->. reflexivity.
Qed.

End GateTrace.

Section GateTheorems.

Context {P : Platform}.

Lemma codeGates_shape (db : list Author) (t : Z) (mail pass : string) :
  shortCircuits (codeGates db t mail pass) = true /\
  (exists k, map gateOf (codeGates db t mail pass)
             = map Some (firstn k gateOrder)) /\
  failedGate (codeGates db t mail pass) <> Some GateActive.
Proof.
  unfold codeGates, gatesAfterLookup.
  destruct (find (matchesLogin mail) db) as [a|] eqn:Hfind.
  2: { cbn. repeat split; [now exists 1%nat|discriminate]. }
  rewrite (find_matchesLogin_isActive _ _ _ Hfind). cbn [negb].
  destruct (lockedAt t a).
  { cbn. repeat split; [now exists 2%nat|discriminate]. }
  destruct (password a) as [h|].
  2: { cbn. repeat split; [now exists 2%nat|discriminate]. }
  destruct (bcrypt_compare pass h).
  2: { cbn. repeat split; [now exists 3%nat|discriminate]. }
  destruct (isVerified a); cbn; repeat split;
    solve [now exists 5%nat | discriminate].
Qed.

(** The gate events of a run of [loginAuthor] are the sequence
    [codeGates], cut at the first failing gate: no gate is evaluated after
    a failure, and the gates come in the order lookup, lock, password,
    [isActive], [isVerified]. *)
Lemma login_gate_order
    (mail pass : string) (deviceInfo : DeviceInfo) (ip : string) (w : World) :
  let gates :=
    gateEvents (newEvents w (snd (loginAuthor mail pass deviceInfo ip w))) in
  gates = codeGates (authors w) (Date_now (ticks w)) mail pass /\
  shortCircuits gates = true /\
  exists k, map gateOf gates = map Some (firstn k gateOrder).
Proof.
  destruct (loginAuthor_gates mail pass deviceInfo ip w) as (ev & E & G & _).
  cbv zeta. rewrite (newEvents_app _ _ _ E), G.
  destruct (codeGates_shape (authors w) (Date_now (ticks w)) mail pass)
    as (S1 & S2 & _).
  auto.
Qed.


End GateTheorems.

(* ===================================================================== *)
(** ** The code on concrete inputs                                       *)
(* ===================================================================== *)

Section OnlyActiveVerified.

Context {P : Platform}.

(** Tokens are only ever returned for an account the lookup found active
    and the service found verified. *)
Lemma login_tokens_only_active_verified
    (mail pass : string) (deviceInfo : DeviceInfo) (ip : string) (w : World)
    (res : LoginResult) :
  fst (loginAuthor mail pass deviceInfo ip w) = Ok res ->
  exists a, find (matchesLogin mail) (authors w) = Some a /\
            isActive a = true /\ isVerified a = true.
Proof.
  unfold loginAuthor. unfold bind at 1. rewrite findByCredentials_run.
  destruct (find (matchesLogin mail) (authors w)) as [a|] eqn:Hfind;
    [|discriminate].
  cbn zeta. intros H. exists a. split; [reflexivity|].
  split; [exact (find_matchesLogin_isActive _ _ _ Hfind)|].
  destruct (lockedAt _ a); [discriminate|].
  destruct (password a) as [h|]; [|discriminate].
  destruct (bcrypt_compare pass h).
  - unfold bind at 1 in H. cbn [emit] in H.
    destruct (negb (isActive _)); [discriminate|].
    unfold bind at 1 in H. cbn [emit] in H.
    change (isVerified (load [P_password; P_loginAttempts; P_lockUntil] a))
      with (isVerified a) in H.
    destruct (isVerified a); [reflexivity|discriminate].
  - destruct (incrementLoginAttempts _ _) as [[?|?] ?]; discriminate.
Qed.

(** Whenever [incrementLoginAttempts] finds the account unlocked it issues
    the increment together with a [$set] of [lockUntil]: the threshold
    plays no part. *)
Lemma incrementLoginAttempts_unlocked_run (this : Document) (w : World) :
  lockedAt (Date_now (ticks w)) this = false ->
  exists n,
    incrementLoginAttempts this w
    = updateOne this
        (mkUpdate (Some 1) None (Some (lockUntilValue (Date_now n))))
        (mkWorld (authors w) (S n) (trace w)).
Proof.
  unfold lockedAt, incrementLoginAttempts, isAccountLocked.
  destruct (lockUntil this) as [u|]; intros H.
  - exists (S (ticks w)). unfold bind at 1. unfold bind at 1. unfold now at 1, ret.
    cbn [ticks]. rewrite H. rewrite thresholdCondition_truthy. reflexivity.
  - exists (ticks w). unfold bind at 1. unfold ret.
    rewrite thresholdCondition_truthy. reflexivity.
Qed.

End OnlyActiveVerified.

Import TestPlatform.

(** C1 (evaluation at the failing input). With [MAX_LOGIN_ATTEMPTS=5] and
    an unlocked account that has no failed attempt on record, one wrong
    password raises the counter to 1 and also writes [lockUntil], although
    1 is below the threshold of 5. *)
Theorem first_failure_already_sets_lockUntil :
  let w' := snd (loginAuthor (P:=P5) "alice@example.com" "wrong" firefox
                   "10.0.0.1" (world [alice])) in
  process_env (Platform:=P5) "MAX_LOGIN_ATTEMPTS" = Some "5" /\
  loginAttempts alice = Some 0 /\ lockUntil alice = None /\
  option_map loginAttempts (lookupById 7%N (authors w')) = Some (Some 1) /\
  option_map lockUntil (lookupById 7%N (authors w')) = Some (Some 7200000).
Proof. vm_compute. repeat split. Qed.

(** C2 (evaluation at the failing input). With [LOCK_TIME] absent, a failed
    attempt at 2023-11-14T22:13:20Z stores [lockUntil] = 7200000, two hours
    after the epoch: it is neither in the future nor the current time plus
    two hours, and the account does not count as locked afterwards. *)
Theorem default_lockUntil_is_in_the_past :
  let w' := snd (loginAuthor (P:=P0) "alice@example.com" "wrong" firefox
                   "10.0.0.1" (world [alice])) in
  process_env (Platform:=P0) "LOCK_TIME" = None /\
  lockUntilValue (P:=P0) (clock 0) = Js.Number (Js.Num 7200000) /\
  option_map lockUntil (lookupById 7%N (authors w')) = Some (Some 7200000) /\
  7200000 < clock 0 /\
  7200000 <> clock 0 + 7200000 /\
  option_map (lockedAt (clock 1)) (lookupById 7%N (authors w')) = Some false.
Proof. vm_compute. repeat split; discriminate. Qed.

(** C3 (evaluation at the failing input). A soft-deleted author who is
    active and verified, whose stored document passes the validation of the
    schema, logs in with the correct password on a platform with token
    secrets and expiries configured, and is handed an access and a refresh
    token; the refresh token is stored on the deleted account. *)
Theorem soft_deleted_author_receives_tokens :
  isDeleted aliceDeleted = true /\
  validationFailures (P:=P0)
    (load [P_password; P_loginAttempts; P_lockUntil] aliceDeleted) = [] /\
  process_env (Platform:=P0) "ACCESS_TOKEN_EXPIRY" = Some "15m" /\
  process_env (Platform:=P0) "REFRESH_TOKEN_EXPIRY" = Some "7d" /\
  exists view w',
    loginAuthor (P:=P0) "alice@example.com" "correct horse" firefox
      "10.0.0.1" (world [aliceDeleted])
    = (Ok (mkLoginResult view "access.7" "refresh.7"), w') /\
    option_map refreshToken (lookupById 7%N (authors w'))
    = Some (Some "refresh.7") /\
    option_map isDeleted (lookupById 7%N (authors w')) = Some true.
Proof.
  split; [reflexivity|]. split; [vm_compute; reflexivity|].
  split; [reflexivity|]. split; [reflexivity|].
  eexists. eexists. split; [vm_compute; reflexivity|].
  split; vm_compute; reflexivity.
Qed.

(** C8 (evaluation at the failing input). Alice changed her password at
    2023-07-22T04:26:40Z; a token issued a quarter of an hour earlier is
    accepted by [verifyJWT] ten minutes after the change, although
    [changedPasswordAfter] answers [true] for it on the stored document. *)
Theorem verifyJWT_accepts_token_older_than_password :
  passwordChangedAt alice = Some 1690000000000 /\
  changedPasswordAfter (P:=PJ) alice (Js.Number (Js.Num 1689999000)) = true /\
  exists d w',
    verifyJWT (P:=PJ) requestWithOldToken (world [alice]) = (Ok d, w') /\
    _id d = 7%N.
Proof.
  split; [reflexivity|]. split; [reflexivity|].
  eexists. eexists. split; [vm_compute; reflexivity|reflexivity].
Qed.


(** C5 (evaluation at the failing input). An inactive account logs in
    with the correct password.  In the claimed order the account exists, is
    not locked, the password verifies, and the [isActive] gate is the one
    that fails, which [loginAuthor] reports as 403 "Account is inactive".
    The code stops at its lookup, which filters on [isActive]: the only
    gate evaluated is the lookup, the hasher never runs, and the answer is
    401 "Invalid email or password". *)
Theorem inactive_account_stops_at_the_lookup :
  let run := loginAuthor (P:=P0) "alice@example.com" "correct horse" firefox
               "10.0.0.1" (world [aliceInactive]) in
  isActive aliceInactive = false /\
  Spec.loginGates (P:=P0) [aliceInactive] (clock 0)
    "alice@example.com" "correct horse"
  = [EvGate GateExists true; EvGate GateNotLocked true;
     EvGate GatePassword true; EvGate GateActive false] /\
  gateError GateActive = ApiError 403 "Account is inactive" /\
  gateEvents (newEvents (world [aliceInactive]) (snd run))
  = [EvGate GateExists false] /\
  hasherCalls (trace (snd run)) = 0%nat /\
  fst run = Throw (ApiError 401 "Invalid email or password").
Proof. vm_compute. repeat split. Qed.

(* ===================================================================== *)
(** ** The general theorems at concrete inputs                           *)
(* ===================================================================== *)

Lemma incrementLoginAttempts_locked_is_noop_witness :
  lockUntil (hydrate aliceLocked) = Some 1700003600000 /\
  Date_now (Platform:=P0) (ticks (world [aliceLocked])) < 1700003600000 /\
  fst (incrementLoginAttempts (P:=P0) (hydrate aliceLocked)
         (world [aliceLocked])) = Ok tt /\
  authors (snd (incrementLoginAttempts (P:=P0) (hydrate aliceLocked)
                  (world [aliceLocked])))
  = authors (world [aliceLocked]) /\
  trace (snd (incrementLoginAttempts (P:=P0) (hydrate aliceLocked)
                (world [aliceLocked])))
  = trace (world [aliceLocked]).
Proof.
  split; [reflexivity|]. split; [reflexivity|].
  apply (incrementLoginAttempts_locked_is_noop (P:=P0) (hydrate aliceLocked)
           1700003600000 (world [aliceLocked])); reflexivity.
Defined.

Lemma login_locked_rejected_without_hasher_witness :
  find (matchesLogin (P:=P0) "alice@example.com")
    (authors (world [aliceLocked]))
  = Some aliceLocked /\
  lockUntil aliceLocked = Some 1700003600000 /\
  Date_now (Platform:=P0) (ticks (world [aliceLocked])) < 1700003600000 /\
  fst (loginAuthor (P:=P0) "alice@example.com" "correct horse" firefox
         "10.0.0.1" (world [aliceLocked])) = Throw invalidCredentials /\
  hasherCalls
    (trace (snd (loginAuthor (P:=P0) "alice@example.com" "correct horse"
                   firefox "10.0.0.1" (world [aliceLocked]))))
  = hasherCalls (trace (world [aliceLocked])) /\
  authors (snd (loginAuthor (P:=P0) "alice@example.com" "correct horse"
                  firefox "10.0.0.1" (world [aliceLocked])))
  = authors (world [aliceLocked]).
Proof.
  split; [reflexivity|]. split; [reflexivity|]. split; [reflexivity|].
  apply (login_locked_rejected_without_hasher (P:=P0) "alice@example.com"
           "correct horse" firefox "10.0.0.1" aliceLocked 1700003600000
           (world [aliceLocked])); reflexivity.
Defined.

Lemma successful_login_clears_lockout_witness :
  loginAttempts aliceStale = Some 3 /\
  lockUntil aliceStale = Some 1699990000000 /\
  exists res w',
    loginAuthor (P:=P0) "alice@example.com" "correct horse" firefox
      "10.0.0.1" (world [aliceStale]) = (Ok res, w') /\
    lockoutCleared (view_id (author res)) (authors w').
Proof.
  split; [reflexivity|]. split; [reflexivity|].
  eexists. eexists. split.
  - vm_compute. reflexivity.
  - apply (successful_login_clears_lockout (P:=P0) "alice@example.com"
             "correct horse" firefox "10.0.0.1" (world [aliceStale])).
    vm_compute. reflexivity.
Defined.

Lemma no_passwordChangedAt_never_rejected_witness :
  passwordChangedAt (with_passwordChangedAt None alice) = None /\
  changedPasswordAfter (P:=PJ) (with_passwordChangedAt None alice)
    (Js.Number (Js.Num 1689999000)) = false /\
  fst (verifyJWT (P:=PJ) requestWithOldToken
         (world [with_passwordChangedAt None alice]))
  <> Throw (ApiError 401 passwordChangedMessage).
Proof.
  split; [reflexivity|].
  destruct (no_passwordChangedAt_never_rejected (P:=PJ)
              (with_passwordChangedAt None alice)
              (Js.Number (Js.Num 1689999000)) requestWithOldToken
              (world [with_passwordChangedAt None alice]) eq_refl)
    as [Hmethod Hgate].
  split; [exact Hmethod|].
  apply Hgate. intros tok Htok.
  vm_compute in Htok. injection Htok as <-. reflexivity.
Defined.


(* ===================================================================== *)
(** ** Reading, soft-deleting and logging out authors                    *)
(* ===================================================================== *)

Lemma lookupById_updateById_other (id id' : ObjectId) (f : Author -> Author)
    (db : list Author) :
  (forall a, _id (f a) = _id a) ->
  id' <> id ->
  lookupById id' (updateById id f db) = lookupById id' db.
Proof.
  intros Hid Hne. unfold lookupById.
  induction db as [|a rest IH]; simpl; [reflexivity|].
  destruct (N.eqb_spec (_id a) id) as [E|E]; simpl.
  - rewrite Hid.
    destruct (N.eqb_spec (_id a) id'); [congruence|reflexivity].
  - destruct (N.eqb_spec (_id a) id'); [reflexivity|exact IH].
Qed.

Lemma find_matchesUndeleted_some (id : ObjectId) (db : list Author)
    (a : Author) :
  find (matchesUndeleted id) db = Some a ->
  In a db /\ _id a = id /\ isDeleted a = false.
Proof.
  intros H. apply find_some in H. destruct H as [Hin H].
  unfold matchesUndeleted in H. apply andb_true_iff in H.
  destruct H as [H1 H2]. apply N.eqb_eq in H1.
  destruct (isDeleted a); [discriminate|auto].
Qed.

Lemma find_matchesUndeleted_lookup (id : ObjectId) (db : list Author)
    (a : Author) :
  find (matchesUndeleted id) db = Some a ->
  exists s, lookupById id db = Some s.
Proof.
  intros H. apply find_matchesUndeleted_some in H. destruct H as (Hin & Hid & _).
  unfold lookupById.
  destruct (find (fun x => (_id x =? id)%N) db) as [s|] eqn:E; [now exists s|].
  apply (find_none _ _ E) in Hin. apply N.eqb_neq in Hin. contradiction.
Qed.

Lemma find_matchesUndeleted_after_delete (id : ObjectId) (db : list Author) :
  NoDup (map _id db) ->
  find (matchesUndeleted id) (updateById id (with_isDeleted true) db) = None.
Proof.
  unfold matchesUndeleted.
  induction db as [|x rest IH]; simpl; [reflexivity|].
  intros Hnd. inversion Hnd as [|? ? Hnotin Hnd']; subst.
  destruct (N.eqb_spec (_id x) id) as [E|E]; simpl.
  - rewrite E, N.eqb_refl. simpl.
    destruct (find _ rest) as [y|] eqn:Hy; [|reflexivity].
    apply find_some in Hy. destruct Hy as [Hin H].
    apply andb_true_iff in H. destruct H as [H _]. apply N.eqb_eq in H.
    exfalso. apply Hnotin. rewrite E, <- H. now apply in_map.
  - destruct (N.eqb_spec (_id x) id); [contradiction|]. simpl.
    exact (IH Hnd').
Qed.

Section AuthorServiceFacts.

Context {P : Platform}.

Lemma getAuthorById_run (id : ObjectId) (w : World) :
  getAuthorById id w
  = match find (matchesUndeleted id) (authors w) with
    | Some a => (Ok (hydrate (applySelect [] a)), w)
    | None => (Throw (ApiError NOT_FOUND "Author not found"), w)
    end.
Proof.
  unfold getAuthorById, findOne_id_undeleted, bind, getAuthors, ret, throw.
  destruct (find (matchesUndeleted id) (authors w)); reflexivity.
Qed.

Lemma findByIdAndUpdate_run (id : ObjectId) (f : Author -> Author) (w : World) :
  findByIdAndUpdate id f w
  = match lookupById id (authors w) with
    | Some s =>
        (Ok (Some (hydrate (applySelect [] (f s)))),
         mkWorld (updateById id f (authors w)) (ticks w)
           (trace w ++ [EvUpdateOne id]))
    | None => (Ok None, w)
    end.
Proof.
  unfold findByIdAndUpdate, bind, getAuthors, putAuthors, emit, ret.
  destruct (lookupById id (authors w)); reflexivity.
Qed.

Lemma deleteAuthorById_run (id : ObjectId) (w : World) :
  deleteAuthorById id w
  = match find (matchesUndeleted id) (authors w) with
    | Some _ => findByIdAndUpdate id (with_isDeleted true) w
    | None => (Throw (ApiError NOT_FOUND "Author not found"), w)
    end.
Proof.
  unfold deleteAuthorById, findOne_id_undeleted, bind, getAuthors, ret, throw.
  destruct (find (matchesUndeleted id) (authors w)); reflexivity.
Qed.

Lemma deleteAuthorById_success (id : ObjectId) (w w' : World)
    (r : option Document) :
  deleteAuthorById id w = (Ok r, w') ->
  exists s,
    lookupById id (authors w) = Some s /\
    r = Some (hydrate (applySelect [] (with_isDeleted true s))) /\
    authors w' = updateById id (with_isDeleted true) (authors w).
Proof.
  rewrite deleteAuthorById_run.
  destruct (find (matchesUndeleted id) (authors w)) as [a|] eqn:Hfind;
    [|discriminate].
  destruct (find_matchesUndeleted_lookup _ _ _ Hfind) as (s & Hs).
  rewrite findByIdAndUpdate_run, Hs. intros H. injection H as <- <-.
  exists s. auto.
Qed.

Lemma logoutAuthor_run (id : ObjectId) (w : World) :
  logoutAuthor id w
  = match lookupById id (authors w) with
    | Some s =>
        (Ok tt,
         mkWorld
           (updateById id (logoutUpdate (Date_now (ticks w))) (authors w))
           (S (ticks w)) (trace w ++ [EvUpdateOne id]))
    | None =>
        (Throw (ApiError INTERNAL_SERVER_ERROR "Logout failed"),
         mkWorld (authors w) (S (ticks w)) (trace w))
    end.
Proof.
  unfold logoutAuthor, catch. unfold bind at 1. unfold now at 1.
  unfold bind. rewrite findByIdAndUpdate_run. cbn [authors ticks trace].
  destruct (lookupById id (authors w)); reflexivity.
Qed.

(** X1. An author handed out by [getAuthorById] is the one asked for, is
    not soft-deleted, and carries none of the paths the schema hides
    (password hash, password-change time, attempt counter, lock, refresh
    token); the call writes nothing. *)
Theorem getAuthorById_returns_undeleted_without_secrets
    (id : ObjectId) (w w' : World) (d : Document) :
  getAuthorById id w = (Ok d, w') ->
  w' = w /\ _id d = id /\ isDeleted d = false /\
  password d = None /\ passwordChangedAt d = None /\
  loginAttempts d = None /\ lockUntil d = None /\ refreshToken d = None.
Proof.
  rewrite getAuthorById_run.
  destruct (find (matchesUndeleted id) (authors w)) as [a|] eqn:Hfind;
    [|discriminate].
  intros H. injection H as <- <-.
  destruct (find_matchesUndeleted_some _ _ _ Hfind) as (_ & Hid & Hdel).
  cbn. auto 10.
Qed.

(** X2. [getAuthorById] answers 404 "Author not found" exactly when every
    stored author with that id is soft-deleted (in particular when there is
    none); it raises no other error. *)
Theorem getAuthorById_not_found_iff (id : ObjectId) (w : World) :
  (fst (getAuthorById id w) = Throw (ApiError NOT_FOUND "Author not found") <->
   forall a, In a (authors w) -> _id a = id -> isDeleted a = true) /\
  (forall e, fst (getAuthorById id w) = Throw e ->
             e = ApiError NOT_FOUND "Author not found").
Proof.
  rewrite getAuthorById_run.
  destruct (find (matchesUndeleted id) (authors w)) as [a|] eqn:Hfind; cbn.
  - split; [|intros e H; discriminate].
    split; [discriminate|]. intros Hall.
    destruct (find_matchesUndeleted_some _ _ _ Hfind) as (Hin & Hid & Hdel).
    rewrite (Hall a Hin Hid) in Hdel. discriminate.
  - split; [|intros e H; now injection H as <-].
    split; [|reflexivity]. intros _ a Hin Hid.
    apply (find_none _ _ Hfind) in Hin. unfold matchesUndeleted in Hin.
    rewrite Hid, N.eqb_refl in Hin. now destruct (isDeleted a).
Qed.

(** X3. Once [deleteAuthorById] has succeeded, the author is gone for the
    service: [getAuthorById] and a second [deleteAuthorById] both answer
    404 (ids being unique in the collection). *)
Theorem deleted_author_is_not_found
    (id : ObjectId) (w w' : World) (r : option Document) :
  NoDup (map _id (authors w)) ->
  deleteAuthorById id w = (Ok r, w') ->
  fst (getAuthorById id w') = Throw (ApiError NOT_FOUND "Author not found") /\
  fst (deleteAuthorById id w') = Throw (ApiError NOT_FOUND "Author not found").
Proof.
  intros Hnd Hdel.
  destruct (deleteAuthorById_success _ _ _ _ Hdel) as (s & _ & _ & Hdb).
  rewrite getAuthorById_run, deleteAuthorById_run, Hdb.
  rewrite (find_matchesUndeleted_after_delete id (authors w) Hnd).
  split; reflexivity.
Qed.

(** X4. A successful [deleteAuthorById] never returns [null]: it returns
    the stored author with [isDeleted] set, and in the collection it
    changes that one flag of that one author and nothing else. *)
Theorem deleteAuthorById_sets_only_isDeleted
    (id : ObjectId) (w w' : World) (r : option Document) :
  deleteAuthorById id w = (Ok r, w') ->
  exists s,
    lookupById id (authors w) = Some s /\
    r = Some (hydrate (applySelect [] (with_isDeleted true s))) /\
    lookupById id (authors w') = Some (with_isDeleted true s) /\
    forall id', id' <> id ->
                lookupById id' (authors w') = lookupById id' (authors w).
Proof.
  intros Hdel.
  destruct (deleteAuthorById_success _ _ _ _ Hdel) as (s & Hs & Hr & Hdb).
  exists s. repeat split; try assumption.
  - rewrite Hdb, lookupById_updateById, Hs by reflexivity. reflexivity.
  - intros id' Hne. rewrite Hdb.
    now apply lookupById_updateById_other.
Qed.

(** X5. After a successful [deleteAuthorById], a bearer token that names
    the deleted author is refused by [verifyJWT] with 401 "Account has been
    deleted". *)
Theorem deleted_author_token_is_refused
    (id : ObjectId) (w w' : World) (r : option Document) (req : Request)
    (tok : DecodedToken) :
  deleteAuthorById id w = (Ok r, w') ->
  Js.truthy (bearerToken req) = true ->
  jwt_verify (Js.ToString (bearerToken req))
    (process_env "ACCESS_TOKEN_SECRET") = Decoded tok ->
  token_id tok = id ->
  fst (verifyJWT req w')
  = Throw (ApiError 401 "Unauthorized - Account has been deleted").
Proof.
  intros Hdel Htruthy Hverify Hid.
  destruct (deleteAuthorById_success _ _ _ _ Hdel) as (s & Hs & _ & Hdb).
  unfold verifyJWT. rewrite Htruthy, Hverify. cbn [negb].
  unfold findById, bind, getAuthors, ret.
  rewrite Hid, Hdb, lookupById_updateById, Hs by reflexivity.
  reflexivity.
Qed.

(** X6. [logoutAuthor] for an id no stored author has fails with 500
    "Logout failed", not with 404: the 404 is thrown inside the [try] whose
    [catch] replaces every error. The collection is untouched. *)
Theorem logoutAuthor_unknown_id_fails_with_500 (id : ObjectId) (w : World) :
  lookupById id (authors w) = None ->
  fst (logoutAuthor id w)
  = Throw (ApiError INTERNAL_SERVER_ERROR "Logout failed") /\
  authors (snd (logoutAuthor id w)) = authors w.
Proof.
  intros H. rewrite logoutAuthor_run, H. split; reflexivity.
Qed.

(** X7. [logoutAuthor] for a stored author succeeds whatever the
    author's flags are: it clears the stored refresh token, stamps
    [lastActive] with the clock reading, and changes nothing else, neither
    in that author nor in any other. *)
Theorem logoutAuthor_clears_refreshToken
    (id : ObjectId) (w : World) (s : Author) :
  lookupById id (authors w) = Some s ->
  let w' := snd (logoutAuthor id w) in
  fst (logoutAuthor id w) = Ok tt /\
  lookupById id (authors w')
  = Some (with_lastActive (Some (Date_now (ticks w)))
            (with_refreshToken None s)) /\
  forall id', id' <> id ->
              lookupById id' (authors w') = lookupById id' (authors w).
Proof.
  intros H. cbv zeta. rewrite logoutAuthor_run, H. cbn [fst snd authors].
  repeat split.
  - rewrite lookupById_updateById, H by reflexivity. reflexivity.
  - intros id' Hne. now apply lookupById_updateById_other.
Qed.

(** X8. Logging out twice is not an error: the second [logoutAuthor] of a
    stored author succeeds as well and the refresh token stays cleared. *)
Theorem logoutAuthor_twice
    (id : ObjectId) (w : World) (s : Author) :
  lookupById id (authors w) = Some s ->
  let w1 := snd (logoutAuthor id w) in
  let w2 := snd (logoutAuthor id w1) in
  fst (logoutAuthor id w1) = Ok tt /\
  option_map refreshToken (lookupById id (authors w2)) = Some None.
Proof.
  intros H. cbv zeta.
  rewrite (logoutAuthor_run id w), H. cbn [snd].
  rewrite logoutAuthor_run. cbn [authors ticks trace].
  rewrite lookupById_updateById, H by reflexivity. cbn [option_map fst snd authors].
  split; [reflexivity|].
  rewrite lookupById_updateById by reflexivity.
  rewrite lookupById_updateById, H by reflexivity. reflexivity.
Qed.

End AuthorServiceFacts.

(** Setters and projections keep the [_id]. *)
Ltac same_id :=
  repeat match goal with
         | |- context [_id (?f ?v ?x)] => change (_id (f v x)) with (_id x)
         end.

Section LoginBookkeeping.

Context {P : Platform}.

(** A successful [loginAuthor], run: the three writes it makes. *)
Lemma loginAuthor_success_run
    (mail pass : string) (deviceInfo : DeviceInfo) (ip : string)
    (w w' : World) (res : LoginResult) :
  loginAuthor mail pass deviceInfo ip w = (Ok res, w') ->
  exists a s,
    find (matchesLogin mail) (authors w) = Some a /\
    lookupById (_id a) (authors w) = Some s /\
    view_id (author res) = _id a /\
    authors w'
    = updateById (_id a) (with_refreshToken (Some (refreshToken_issued res)))
        (updateById (_id a)
           (fun x =>
              with_lastActive
                (Some (Date_now (S (ticksAfterLockTest a w))))
                (with_loginHistory
                   (loginHistory a
                    ++ [historyEntry deviceInfo ip (ticksAfterLockTest a w)])
                   x))
           (updateById (_id a)
              (fun x => with_lockUntil None (with_loginAttempts (Some 0) x))
              (authors w))).
Proof.
  unfold loginAuthor. unfold bind at 1. rewrite findByCredentials_run.
  destruct (find (matchesLogin mail) (authors w)) as [a|] eqn:Hfind;
    [|discriminate].
  cbn zeta. fold (ticksAfterLockTest a w).
  destruct (lockedAt _ a); [discriminate|].
  destruct (password a) as [h|]; [|discriminate].
  destruct (bcrypt_compare pass h).
  2: { destruct (incrementLoginAttempts _ _) as [[?|?] ?]; discriminate. }
  unfold bind at 1. cbn [emit].
  change (isActive (load [P_password; P_loginAttempts; P_lockUntil] a))
    with (isActive a).
  rewrite (find_matchesLogin_isActive _ _ _ Hfind). cbn [negb].
  unfold bind at 1. cbn [emit]. cbn [authors ticks trace].
  change (isVerified (load [P_password; P_loginAttempts; P_lockUntil] a))
    with (isVerified a).
  destruct (isVerified a); cbn [negb]; [|discriminate].
  unfold bind at 1. unfold recordLogin. unfold bind at 1. unfold now at 1.
  unfold bind at 1. unfold now at 1. cbn [authors ticks trace].
  rewrite save_run by reflexivity.
  destruct (validationFailures _) as [|? ?]; [|discriminate].
  cbn [authors ticks trace fields assign hydrate load modified]. same_id.
  destruct (lookupById (_id a) (updateById (_id a) _ (authors w)))
    as [s1|] eqn:Hs1; [|discriminate].
  rewrite lookupById_updateById in Hs1 by reflexivity.
  destruct (lookupById (_id a) (authors w)) as [s|] eqn:Hs; [|discriminate].
  unfold bind at 1. unfold generateAccessToken. unfold bind at 1.
  unfold getTicks at 1. cbn [ticks authors trace].
  destruct (jwt_sign (AccessPayload _ _ _) _ _ _) as [access|]; [|discriminate].
  unfold bind at 1. cbn [emit ret authors ticks trace].
  unfold bind at 1. unfold generateRefreshToken. unfold bind at 1.
  unfold getTicks at 1. cbn [ticks authors trace].
  destruct (jwt_sign (RefreshPayload _) _ _ _) as [refresh|]; [|discriminate].
  unfold bind at 1. cbn [emit ret authors ticks trace].
  unfold bind at 1. rewrite save_run by reflexivity.
  destruct (validationFailures _) as [|? ?]; [|discriminate].
  cbn [authors ticks trace fields assign modified]. same_id.
  rewrite !lookupById_updateById by reflexivity. rewrite Hs.
  cbn [option_map]. unfold ret. intros H. injection H as <- <-.
  exists a, s. repeat split; assumption || reflexivity.
Qed.

(** X9. A successful login records the session on the stored account of
    the author it found: one entry (device, address, clock reading) is
    appended to the login history, [lastActive] is stamped, the refresh
    token stored is the one returned, the lockout state is cleared, and
    nothing else changes, in this account or any other. *)
Theorem successful_login_records_the_session
    (mail pass : string) (deviceInfo : DeviceInfo) (ip : string)
    (w w' : World) (res : LoginResult) :
  loginAuthor mail pass deviceInfo ip w = (Ok res, w') ->
  exists a s,
    find (matchesLogin mail) (authors w) = Some a /\
    lookupById (_id a) (authors w) = Some s /\
    view_id (author res) = _id a /\
    lookupById (_id a) (authors w')
    = Some (with_refreshToken (Some (refreshToken_issued res))
              (with_lastActive
                 (Some (Date_now (S (ticksAfterLockTest a w))))
                 (with_loginHistory
                    (loginHistory a
                     ++ [historyEntry deviceInfo ip (ticksAfterLockTest a w)])
                    (with_lockUntil None
                       (with_loginAttempts (Some 0) s))))) /\
    forall id', id' <> _id a ->
                lookupById id' (authors w') = lookupById id' (authors w).
Proof.
  intros H.
  destruct (loginAuthor_success_run _ _ _ _ _ _ _ H)
    as (a & s & Hfind & Hs & Hid & Hdb).
  exists a, s. repeat split; try assumption.
  - rewrite Hdb. rewrite !lookupById_updateById by reflexivity.
    rewrite Hs. reflexivity.
  - intros id' Hne. rewrite Hdb.
    rewrite !lookupById_updateById_other by (reflexivity || assumption).
    reflexivity.
Qed.

(** X10. Login followed by logout: [logoutAuthor] on the id a successful
    [loginAuthor] returned succeeds, and afterwards the stored account
    holds no refresh token while its lockout state is still cleared. *)
Theorem logout_after_login_drops_the_refresh_token
    (mail pass : string) (deviceInfo : DeviceInfo) (ip : string)
    (w w1 : World) (res : LoginResult) :
  loginAuthor mail pass deviceInfo ip w = (Ok res, w1) ->
  let id := view_id (author res) in
  let w2 := snd (logoutAuthor id w1) in
  fst (logoutAuthor id w1) = Ok tt /\
  exists d, lookupById id (authors w2) = Some d /\
            refreshToken d = None /\
            loginAttempts d = Some 0 /\ lockUntil d = None.
Proof.
  intros H. cbv zeta.
  destruct (loginAuthor_success_run _ _ _ _ _ _ _ H)
    as (a & s & Hfind & Hs & Hid & Hdb).
  rewrite Hid, logoutAuthor_run.
  assert (Hl : exists d1, lookupById (_id a) (authors w1) = Some d1 /\
                          loginAttempts d1 = Some 0 /\ lockUntil d1 = None).
  { rewrite Hdb. rewrite !lookupById_updateById by reflexivity.
    rewrite Hs. eexists. split; [reflexivity|]. split; reflexivity. }
  destruct Hl as (d1 & Hd1 & Hn & Hu). rewrite Hd1. cbn [fst snd authors].
  split; [reflexivity|].
  exists (logoutUpdate (Date_now (ticks w1)) d1).
  rewrite lookupById_updateById, Hd1 by reflexivity.
  repeat split; assumption.
Qed.

(** X11. A lock that has run out is not a rejection: when [lockUntil] is
    not later than the clock reading (equal counts as run out), the lock
    gate passes and the submitted password is put to the hasher. *)
Theorem expired_lock_reaches_the_password_gate
    (mail pass : string) (deviceInfo : DeviceInfo) (ip : string) (w : World)
    (a : Author) (u : Date) (h : string) :
  find (matchesLogin mail) (authors w) = Some a ->
  lockUntil a = Some u ->
  u <= Date_now (ticks w) ->
  password a = Some h ->
  firstn 3
    (gateEvents
       (newEvents w (snd (loginAuthor mail pass deviceInfo ip w))))
  = [EvGate GateExists true; EvGate GateNotLocked true;
     EvGate GatePassword (bcrypt_compare pass h)].
Proof.
  intros Hfind Hlock Hpast Hpw.
  destruct (loginAuthor_gates mail pass deviceInfo ip w) as (ev & E & G & _).
  rewrite (newEvents_app _ _ _ E), G.
  unfold codeGates, gatesAfterLookup, lockedAt.
  rewrite Hfind, Hlock, Hpw.
  apply Z.ltb_ge in Hpast. rewrite Hpast. reflexivity.
Qed.

(** X12. A wrong password on an unlocked account, when the login answers
    401 "Invalid email or password", has raised the stored attempt counter
    by exactly one (a missing counter counts as 0) and has left every
    other account as it was. *)
Theorem failed_login_counts_one_attempt
    (mail pass : string) (deviceInfo : DeviceInfo) (ip : string) (w : World)
    (a s : Author) (h : string) :
  find (matchesLogin mail) (authors w) = Some a ->
  lookupById (_id a) (authors w) = Some s ->
  lockedAt (Date_now (ticks w)) a = false ->
  lockedAt (Date_now (ticksAfterLockTest a w)) a = false ->
  password a = Some h ->
  bcrypt_compare pass h = false ->
  fst (loginAuthor mail pass deviceInfo ip w) = Throw invalidCredentials ->
  let w' := snd (loginAuthor mail pass deviceInfo ip w) in
  (exists d, lookupById (_id a) (authors w') = Some d /\
             loginAttempts d
             = Some (match loginAttempts s with Some n => n | None => 0 end
                     + 1)) /\
  forall id', id' <> _id a ->
              lookupById id' (authors w') = lookupById id' (authors w).
Proof.
  intros Hfind Hs Hl1 Hl2 Hpw Hcmp. cbv zeta.
  remember (loginAuthor mail pass deviceInfo ip w) as r eqn:Hr.
  unfold loginAuthor in Hr. unfold bind at 1 in Hr.
  rewrite findByCredentials_run, Hfind in Hr. cbn zeta in Hr.
  fold (ticksAfterLockTest a w) in Hr.
  rewrite Hl1, Hpw, Hcmp in Hr. cbn [negb] in Hr.
  match type of Hr with context [incrementLoginAttempts ?d ?w0] =>
    destruct (incrementLoginAttempts_unlocked_run d w0 Hl2) as (n & Hrun);
    rewrite Hrun in Hr
  end.
  unfold updateOne in Hr. cbn [set_lockUntil] in Hr.
  destruct (castDate (lockUntilValue (Date_now n))) as [lock|].
  2: { subst r. cbn. discriminate. }
  unfold bind, getAuthors, putAuthors, emit in Hr.
  cbn [fst snd authors ticks trace throw fields hydrate load] in Hr.
  subst r. unfold throw. cbn [fst snd authors]. same_id. intros _. split.
  - eexists. rewrite lookupById_updateById, Hs.
    + split; reflexivity.
    + intros x. unfold applyUpdate. cbn. now destruct lock.
  - intros id' Hne. apply lookupById_updateById_other; [|exact Hne].
    intros x. unfold applyUpdate. cbn. now destruct lock.
Qed.



End LoginBookkeeping.

(* ===================================================================== *)
(** ** The bearer-token middleware                                       *)
(* ===================================================================== *)

Lemma substring_whole (t : string) : substring 0 (String.length t) t = t.
Proof. induction t as [|c t IH]; cbn; [reflexivity|now rewrite IH]. Qed.

Lemma replace_Bearer_prefix (t : string) :
  Js.replace "Bearer " "" ("Bearer " ++ t)%string = t.
Proof.
  cbn. replace (prefix "" t) with true by (destruct t; reflexivity).
  rewrite Nat.sub_0_r. apply substring_whole.
Qed.

Lemma lookupById_id (id : ObjectId) (db : list Author) (s : Author) :
  lookupById id db = Some s -> _id s = id.
Proof.
  intros H. apply find_some in H. destruct H as [_ H]. now apply N.eqb_eq.
Qed.

Section Middleware.

Context {P : Platform}.

(** X14. [verifyJWT] only reads: whatever it answers, the collection, the
    clock and the record of writes are as they were. *)
Theorem verifyJWT_changes_nothing (req : Request) (w : World) :
  snd (verifyJWT req w) = w.
Proof.
  unfold verifyJWT.
  destruct (negb (Js.truthy (bearerToken req))); [reflexivity|].
  destruct (jwt_verify _ _) as [tok|name].
  - unfold findById, bind, getAuthors, ret.
    destruct (lookupById (token_id tok) (authors w)) as [a|]; cbn [option_map];
      [|reflexivity].
    destruct (isDeleted _); [reflexivity|].
    destruct (changedPasswordAfter _ _); reflexivity.
  - destruct (name =? "TokenExpiredError")%string; [reflexivity|].
    destruct (name =? "JsonWebTokenError")%string; reflexivity.
Qed.

(** X15. An author [verifyJWT] lets through is the stored author the
    token names, is not soft-deleted, and is loaded without the paths the
    schema hides: no password hash, no refresh token, no lockout fields. *)
Theorem verifyJWT_admits_the_named_undeleted_author
    (req : Request) (w w' : World) (d : Document) :
  verifyJWT req w = (Ok d, w') ->
  exists tok s,
    jwt_verify (Js.ToString (bearerToken req))
      (process_env "ACCESS_TOKEN_SECRET") = Decoded tok /\
    lookupById (token_id tok) (authors w) = Some s /\
    _id d = token_id tok /\ isDeleted d = false /\
    email d = email s /\ role d = role s /\
    password d = None /\ refreshToken d = None /\
    loginAttempts d = None /\ lockUntil d = None.
Proof.
  unfold verifyJWT.
  destruct (negb (Js.truthy (bearerToken req))); [discriminate|].
  destruct (jwt_verify _ _) as [tok|name] eqn:Hverify.
  - unfold findById, bind, getAuthors, ret.
    destruct (lookupById (token_id tok) (authors w)) as [s|] eqn:Hs;
      cbn [option_map]; [|discriminate].
    destruct (isDeleted (load [] s)) eqn:Hdel; [discriminate|].
    destruct (changedPasswordAfter _ _); [discriminate|].
    intros H. injection H as <- <-.
    exists tok, s. repeat split; try assumption.
    exact (lookupById_id _ _ _ Hs).
  - destruct (name =? "TokenExpiredError")%string; [discriminate|].
    destruct (name =? "JsonWebTokenError")%string; discriminate.
Qed.

(** X16. Every refusal of [verifyJWT] is an [ApiError] with status 401,
    except that a verification failure which is neither a
    [TokenExpiredError] nor a [JsonWebTokenError] is answered with 500
    "Token verification failed". *)
Theorem verifyJWT_refusals (req : Request) (w : World) (e : Exception) :
  fst (verifyJWT req w) = Throw e ->
  (exists m, e = ApiError 401 m) \/
  (e = ApiError 500 "Token verification failed" /\
   exists name,
     jwt_verify (Js.ToString (bearerToken req))
       (process_env "ACCESS_TOKEN_SECRET") = VerifyError name /\
     name <> "TokenExpiredError" /\ name <> "JsonWebTokenError").
Proof.
  unfold verifyJWT.
  destruct (negb (Js.truthy (bearerToken req))).
  { cbn. intros H. injection H as <-. left. eauto. }
  destruct (jwt_verify _ _) as [tok|name] eqn:Hverify.
  - unfold findById, bind, getAuthors, ret.
    destruct (lookupById (token_id tok) (authors w)) as [s|];
      cbn [option_map].
    + destruct (isDeleted _).
      { cbn. intros H. injection H as <-. left. eauto. }
      destruct (changedPasswordAfter _ _); cbn; [|discriminate].
      intros H. injection H as <-. left. eauto.
    + cbn. intros H. injection H as <-. left. eauto.
  - destruct (String.eqb_spec name "TokenExpiredError") as [E1|E1].
    { cbn. intros H. injection H as <-. left. eauto. }
    destruct (String.eqb_spec name "JsonWebTokenError") as [E2|E2].
    { cbn. intros H. injection H as <-. left. eauto. }
    cbn. intros H. injection H as <-. right. split; [reflexivity|].
    exists name. auto.
Qed.

(** X17. A non-empty [accessToken] cookie wins: the [Authorization] header
    is then not looked at, whatever it holds. *)
Theorem verifyJWT_cookie_takes_precedence
    (c : string) (header header' : option string) (w : World) :
  c <> "" ->
  verifyJWT (mkRequest (Some c) header) w
  = verifyJWT (mkRequest (Some c) header') w.
Proof.
  intros Hc. unfold verifyJWT, bearerToken, Js.or.
  cbn [cookies_accessToken header_Authorization Js.of_env Js.truthy].
  destruct (String.eqb_spec c ""); [contradiction|]. reflexivity.
Qed.

(** X18. Without a usable cookie: no [Authorization] header is answered
    with 401 "No token provided"; a header ["Bearer " ++ t] is treated
    exactly as the token [t] itself, so that the bare header ["Bearer "] is
    "No token provided" as well. *)
Theorem verifyJWT_reads_the_bearer_header
    (cookie : option string) (t : string) (w : World) :
  cookie = None \/ cookie = Some "" ->
  fst (verifyJWT (mkRequest cookie None) w)
  = Throw (ApiError 401 "Unauthorized - No token provided") /\
  verifyJWT (mkRequest cookie (Some ("Bearer " ++ t)%string)) w
  = verifyJWT (mkRequest (Some t) None) w /\
  fst (verifyJWT (mkRequest cookie (Some "Bearer ")) w)
  = Throw (ApiError 401 "Unauthorized - No token provided").
Proof.
  intros [-> | ->]; (split; [reflexivity|]); (split; [|reflexivity]);
    unfold verifyJWT, bearerToken, Js.or;
    cbn [cookies_accessToken header_Authorization Js.of_env Js.truthy
         option_map String.eqb negb];
    rewrite replace_Bearer_prefix;
    destruct t; reflexivity.
Qed.

End Middleware.

(* ===================================================================== *)
(** ** The news schema: post positions                                   *)
(* ===================================================================== *)

Lemma nodup_length_le (l : list Z) :
  (List.length (nodup Z.eq_dec l) <= List.length l)%nat.
Proof.
  induction l as [|x l IH]; cbn; [lia|].
  destruct (in_dec Z.eq_dec x l); cbn; lia.
Qed.

Lemma setSize_full_iff (l : list Z) :
  setSize l = List.length l <-> NoDup l.
Proof.
  unfold setSize. split.
  - induction l as [|x l IH]; cbn; [constructor|].
    destruct (in_dec Z.eq_dec x l) as [Hin|Hnin]; cbn; intros H.
    + pose proof (nodup_length_le l). lia.
    + constructor; [exact Hnin|]. apply IH. lia.
  - intros H. now rewrite (nodup_fixed_point Z.eq_dec H).
Qed.

(** X19. The news [pre("save")] hook lets a save with modified posts
    through exactly when no two posts share a position, and answers the
    one error "Post positions must be unique within a news item"
    otherwise; a save that did not touch the posts is never refused. *)
Theorem newsPreSave_accepts_iff_positions_distinct (posts : list Post) :
  (newsPreSave true posts = None <-> NoDup (map position posts)) /\
  (newsPreSave true posts <> None ->
   newsPreSave true posts
   = Some "Post positions must be unique within a news item") /\
  newsPreSave false posts = None.
Proof.
  unfold newsPreSave.
  destruct (Nat.eqb_spec (setSize (map position posts))
              (List.length (map position posts))) as [E|E]; cbn.
  - repeat split; try congruence. intros _. now apply setSize_full_iff.
  - repeat split; try congruence.
    intros H. apply setSize_full_iff in H. contradiction.
Qed.

(* ===================================================================== *)
(** ** The category schema: slugs                                        *)
(* ===================================================================== *)

Lemma isSlugUnit_not_hyphen (u : CodeUnit) :
  isSlugUnit u = true -> (u =? HYPHEN)%N = false.
Proof.
  unfold isSlugUnit, HYPHEN. intros H. apply N.eqb_neq. intros ->.
  discriminate.
Qed.

Lemma replaceRuns_shape (s : JsString) (inRun : bool) :
  slugUnits (replaceRuns inRun s) = true /\
  noDoubleHyphen (replaceRuns inRun s) = true /\
  (inRun = true -> startsWithHyphen (replaceRuns inRun s) = false).
Proof.
  unfold slugUnits.
  revert inRun. induction s as [|u rest IH]; intros inRun; cbn; [auto|].
  destruct (isSlugUnit u) eqn:Hu.
  - destruct (IH false) as (I1 & I2 & _). cbn. rewrite Hu, I1, I2.
    rewrite (isSlugUnit_not_hyphen u Hu). cbn.
    repeat split. now destruct (replaceRuns false rest).
  - destruct inRun.
    + exact (IH true).
    + destruct (IH true) as (I1 & I2 & I3). cbn. rewrite I1, I2.
      specialize (I3 eq_refl).
      repeat split; try discriminate.
      destruct (replaceRuns true rest); [reflexivity|].
      cbn in I3. rewrite I3. reflexivity.
Qed.

Lemma dropLeadingHyphen_shape (s : JsString) :
  slugUnits s = true ->
  noDoubleHyphen s = true ->
  slugUnits (dropLeadingHyphen s) = true /\
  noDoubleHyphen (dropLeadingHyphen s) = true /\
  startsWithHyphen (dropLeadingHyphen s) = false.
Proof.
  unfold slugUnits. destruct s as [|u rest]; [auto|].
  intros Hc Hd. unfold dropLeadingHyphen.
  destruct (u =? HYPHEN)%N eqn:E.
  - cbn [forallb] in Hc. apply andb_true_iff in Hc. destruct Hc as [_ Hc].
    cbn [noDoubleHyphen] in Hd. apply andb_true_iff in Hd.
    destruct Hd as [Hh Hd].
    repeat split; try assumption.
    destruct rest as [|v rest']; [reflexivity|]. cbn.
    rewrite E in Hh. cbn in Hh. now destruct (v =? HYPHEN)%N.
  - repeat split; assumption.
Qed.

Lemma dropTrailingHyphen_head (v : CodeUnit) (r : JsString) :
  dropTrailingHyphen (v :: r) = [] \/
  exists t, dropTrailingHyphen (v :: r) = v :: t.
Proof.
  destruct r as [|x r]; cbn.
  - destruct (v =? HYPHEN)%N; eauto.
  - eauto.
Qed.

Lemma dropTrailingHyphen_nil (v : CodeUnit) (r : JsString) :
  dropTrailingHyphen (v :: r) = [] -> r = [] /\ (v =? HYPHEN)%N = true.
Proof.
  destruct r as [|x r]; cbn.
  - destruct (v =? HYPHEN)%N; [auto|discriminate].
  - discriminate.
Qed.

Lemma dropTrailingHyphen_units (s : JsString) :
  slugUnits s = true -> slugUnits (dropTrailingHyphen s) = true.
Proof.
  unfold slugUnits.
  induction s as [|u rest IH]; [reflexivity|].
  intros H. cbn [forallb] in H. apply andb_true_iff in H.
  destruct H as [Hu H].
  destruct rest as [|v r].
  - cbn [dropTrailingHyphen].
    destruct (u =? HYPHEN)%N eqn:E; [reflexivity|].
    cbn [forallb]. rewrite E in *. rewrite Hu. reflexivity.
  - change (dropTrailingHyphen (u :: v :: r))
      with (u :: dropTrailingHyphen (v :: r)).
    cbn [forallb]. rewrite Hu, (IH H). reflexivity.
Qed.

Lemma dropTrailingHyphen_noDouble (s : JsString) :
  noDoubleHyphen s = true -> noDoubleHyphen (dropTrailingHyphen s) = true.
Proof.
  induction s as [|u rest IH]; [reflexivity|].
  destruct rest as [|v r].
  - intros _. cbn. now destruct (u =? HYPHEN)%N.
  - intros H. cbn [noDoubleHyphen] in H. apply andb_true_iff in H.
    destruct H as [Hh H].
    change (dropTrailingHyphen (u :: v :: r))
      with (u :: dropTrailingHyphen (v :: r)).
    specialize (IH H).
    destruct (dropTrailingHyphen_head v r) as [E|[t E]]; rewrite E in *.
    + reflexivity.
    + cbn [noDoubleHyphen]. cbn [noDoubleHyphen] in IH.
      rewrite Hh, IH. reflexivity.
Qed.

Lemma dropTrailingHyphen_start (s : JsString) :
  startsWithHyphen s = false ->
  startsWithHyphen (dropTrailingHyphen s) = false.
Proof.
  destruct s as [|u rest]; [reflexivity|]. cbn [startsWithHyphen].
  intros H. destruct (dropTrailingHyphen_head u rest) as [E|[t E]];
    rewrite E; [reflexivity|exact H].
Qed.

Lemma dropTrailingHyphen_end (s : JsString) :
  noDoubleHyphen s = true ->
  endsWithHyphen (dropTrailingHyphen s) = false.
Proof.
  induction s as [|u rest IH]; [reflexivity|].
  destruct rest as [|v r].
  - intros _. cbn. destruct (u =? HYPHEN)%N eqn:E; cbn; [reflexivity|exact E].
  - intros H. cbn [noDoubleHyphen] in H. apply andb_true_iff in H.
    destruct H as [Hh H].
    change (dropTrailingHyphen (u :: v :: r))
      with (u :: dropTrailingHyphen (v :: r)).
    specialize (IH H).
    destruct (dropTrailingHyphen (v :: r)) as [|x t] eqn:E.
    + apply dropTrailingHyphen_nil in E. destruct E as [_ Ev].
      rewrite Ev in Hh. cbn. now destruct (u =? HYPHEN)%N.
    + exact IH.
Qed.

Lemma isSlugUnit_HYPHEN : isSlugUnit HYPHEN = false.
Proof. reflexivity. Qed.

Lemma filter_replaceRuns (s : JsString) (inRun : bool) :
  filter isSlugUnit (replaceRuns inRun s) = filter isSlugUnit s.
Proof.
  revert inRun. induction s as [|u rest IH]; intros inRun; cbn; [reflexivity|].
  destruct (isSlugUnit u) eqn:Hu.
  - cbn. rewrite Hu, IH. reflexivity.
  - destruct inRun; [apply IH|]. cbn. apply IH.
Qed.

Lemma filter_dropLeadingHyphen (s : JsString) :
  filter isSlugUnit (dropLeadingHyphen s) = filter isSlugUnit s.
Proof.
  destruct s as [|u rest]; [reflexivity|]. cbn.
  destruct (N.eqb_spec u HYPHEN) as [->|_]; reflexivity.
Qed.

Lemma filter_dropTrailingHyphen (s : JsString) :
  filter isSlugUnit (dropTrailingHyphen s) = filter isSlugUnit s.
Proof.
  induction s as [|u rest IH]; [reflexivity|].
  destruct rest as [|v r].
  - cbn. destruct (N.eqb_spec u HYPHEN) as [->|_]; reflexivity.
  - change (dropTrailingHyphen (u :: v :: r))
      with (u :: dropTrailingHyphen (v :: r)).
    cbn [filter]. rewrite IH. reflexivity.
Qed.

Lemma replaceRuns_no_units (s : JsString) (inRun : bool) :
  filter isSlugUnit s = [] ->
  replaceRuns inRun s = [] \/ replaceRuns inRun s = [HYPHEN].
Proof.
  revert inRun. induction s as [|u rest IH]; intros inRun; cbn; [auto|].
  destruct (isSlugUnit u); [discriminate|]. intros H.
  destruct inRun; [exact (IH true H)|].
  right. assert (E : replaceRuns true rest = []).
  { clear IH. induction rest as [|v r IHr]; [reflexivity|]. cbn in *.
    destruct (isSlugUnit v); [discriminate|]. exact (IHr H). }
  now rewrite E.
Qed.

(** A string that is already a slug is left alone by the two
    replacements. *)
Lemma replaceRuns_fixes_slugs (s : JsString) (inRun : bool) :
  slugUnits s = true ->
  noDoubleHyphen s = true ->
  (inRun = true -> startsWithHyphen s = false) ->
  replaceRuns inRun s = s.
Proof.
  unfold slugUnits.
  revert inRun. induction s as [|u rest IH]; intros inRun Hc Hd Hs;
    [reflexivity|].
  cbn [forallb] in Hc. apply andb_true_iff in Hc. destruct Hc as [Hu Hc].
  cbn [noDoubleHyphen] in Hd. apply andb_true_iff in Hd.
  destruct Hd as [Hh Hd]. cbn [replaceRuns].
  destruct (isSlugUnit u) eqn:Eu.
  - f_equal. apply IH; [assumption|assumption|discriminate].
  - cbn in Hu. apply N.eqb_eq in Hu. subst u.
    destruct inRun.
    + specialize (Hs eq_refl). discriminate.
    + f_equal. apply IH; [assumption|assumption|].
      intros _. destruct rest as [|v r]; [reflexivity|].
      cbn in Hh |- *. now destruct (v =? HYPHEN)%N.
Qed.

Lemma dropTrailingHyphen_fixes (s : JsString) :
  endsWithHyphen s = false -> dropTrailingHyphen s = s.
Proof.
  induction s as [|u rest IH]; [reflexivity|].
  destruct rest as [|v r].
  - cbn. intros H. now rewrite H.
  - intros H.
    change (dropTrailingHyphen (u :: v :: r))
      with (u :: dropTrailingHyphen (v :: r)).
    f_equal. apply IH. exact H.
Qed.

Section Slugs.

Variable toLowerCase : JsString -> JsString.

Lemma slugOf_shape_parts (title : JsString) :
  slugUnits (slugOf toLowerCase title) = true /\
  noDoubleHyphen (slugOf toLowerCase title) = true /\
  startsWithHyphen (slugOf toLowerCase title) = false /\
  endsWithHyphen (slugOf toLowerCase title) = false.
Proof.
  unfold slugOf, trimHyphens.
  destruct (replaceRuns_shape (toLowerCase title) false) as (R1 & R2 & _).
  destruct (dropLeadingHyphen_shape _ R1 R2) as (D1 & D2 & D3).
  auto using dropTrailingHyphen_units, dropTrailingHyphen_noDouble,
    dropTrailingHyphen_start, dropTrailingHyphen_end.
Qed.

(** X20. Whatever the title and the engine's case mappings, the slug the
    category hook sets for a modified title is made of [[a-z0-9]] and
    hyphens only, has no two hyphens in a row, and neither starts nor ends
    with a hyphen; when the title is not modified the hook leaves title and
    slug as they are. *)
Theorem categoryPreSave_slug_is_well_formed
    (toUpperCase : JsString -> JsString) (title slug : JsString) :
  wellFormedSlug
    (snd (categoryPreSave toUpperCase toLowerCase true title slug)) = true /\
  categoryPreSave toUpperCase toLowerCase false title slug = (title, slug).
Proof.
  split; [|reflexivity]. cbn [categoryPreSave snd].
  destruct (slugOf_shape_parts (capitalize toUpperCase title))
    as (W1 & W2 & W3 & W4).
  unfold wellFormedSlug. rewrite W1, W2, W3, W4. reflexivity.
Qed.

(** X21. The slug keeps exactly the units of the lower-cased title that are
    in [[a-z0-9]], in their order; it is empty exactly when the lower-cased
    title has none. *)
Theorem slugOf_keeps_the_alphanumerics (title : JsString) :
  filter isSlugUnit (slugOf toLowerCase title)
  = filter isSlugUnit (toLowerCase title) /\
  (slugOf toLowerCase title = [] <->
   filter isSlugUnit (toLowerCase title) = []).
Proof.
  assert (E : filter isSlugUnit (slugOf toLowerCase title)
              = filter isSlugUnit (toLowerCase title)).
  { unfold slugOf, trimHyphens.
    now rewrite filter_dropTrailingHyphen, filter_dropLeadingHyphen,
      filter_replaceRuns. }
  split; [exact E|]. split.
  - intros H. rewrite <- E, H. reflexivity.
  - intros H. unfold slugOf, trimHyphens.
    destruct (replaceRuns_no_units _ false H) as [-> | ->]; reflexivity.
Qed.

(** X22. Slugs are stable: when lower-casing leaves strings of [[a-z0-9-]]
    alone, the slug of a slug is that slug. *)
Theorem slugOf_is_idempotent (title : JsString) :
  (forall s, slugUnits s = true -> toLowerCase s = s) ->
  slugOf toLowerCase (slugOf toLowerCase title) = slugOf toLowerCase title.
Proof.
  intros Hlower.
  pose proof (slugOf_shape_parts title) as (W1 & W2 & W3 & W4).
  unfold slugOf at 1. rewrite (Hlower _ W1).
  rewrite (replaceRuns_fixes_slugs _ false W1 W2) by discriminate.
  unfold trimHyphens.
  assert (E : dropLeadingHyphen (slugOf toLowerCase title)
              = slugOf toLowerCase title).
  { destruct (slugOf toLowerCase title) as [|u r]; [reflexivity|].
    cbn in W3 |- *. now rewrite W3. }
  rewrite E. now apply dropTrailingHyphen_fixes.
Qed.

End Slugs.

(* ===================================================================== *)
(** ** Listing authors page by page                                      *)
(* ===================================================================== *)

Lemma firstn_add {A : Type} (a b : nat) (l : list A) :
  firstn (a + b) l = firstn a l ++ firstn b (skipn a l).
Proof.
  revert l. induction a as [|a IH]; intros l; [reflexivity|].
  destruct l as [|x l]; cbn.
  - now rewrite firstn_nil.
  - now rewrite IH.
Qed.

Lemma concat_chunks {A : Type} (n k : nat) (l : list A) :
  concat (map (fun i => firstn n (skipn (i * n) l)) (seq 0 k))
  = firstn (k * n) l.
Proof.
  induction k as [|k IH]; [reflexivity|].
  rewrite seq_S, map_app, concat_app, IH. cbn [map concat plus].
  rewrite app_nil_r. replace (S k * n)%nat with (k * n + n)%nat by lia.
  now rewrite firstn_add.
Qed.

Lemma pageCount_bounds (n : N) (l : positive) :
  (n <= pageCount n l * Npos l /\ pageCount n l * Npos l < n + Npos l)%N.
Proof.
  unfold pageCount.
  pose proof (N.div_mod (n + Npos l - 1) (Npos l)) as D.
  pose proof (N.mod_lt (n + Npos l - 1) (Npos l)) as M.
  assert (Npos l <> 0)%N as Hl by discriminate.
  specialize (D Hl). specialize (M Hl).
  remember ((n + Npos l - 1) / Npos l)%N as q.
  remember ((n + Npos l - 1) mod Npos l)%N as r.
  lia.
Qed.

Section Listing.

Context {P : Platform} {Q : QueryEngine}.

Lemma getAllAuthors_run (f : AuthorFilters) (w : World) :
  queryAccepted f = true ->
  exists r,
    getAllAuthors f w = (Ok r, w) /\
    page_authors r
    = firstn (Pos.to_nat (limitOf f))
        (skipn (N.to_nat ((Npos (pageOf f) - 1) * Npos (limitOf f)))
           (allListed f w)) /\
    pagination r
    = mkPagination (N.of_nat (List.length (filter (listQuery f) (authors w))))
        (pageOf f) (limitOf f)
        (pageCount (N.of_nat (List.length (filter (listQuery f) (authors w))))
           (limitOf f)).
Proof.
  intros Hq. unfold getAllAuthors, bind, getAuthors. rewrite Hq. cbn [negb].
  eexists. split; [reflexivity|]. cbn [page_authors pagination].
  split; [|reflexivity].
  unfold allListed. rewrite Hq. now rewrite <- firstn_map, <- skipn_map.
Qed.

Lemma getAllAuthors_rejected (f : AuthorFilters) (w : World) :
  queryAccepted f = false ->
  getAllAuthors f w
  = (Throw (MongoServerError "Regular expression is invalid"), w).
Proof.
  intros Hq. unfold getAllAuthors, bind, getAuthors. rewrite Hq. reflexivity.
Qed.

Lemma concat_map_nil {A B : Type} (l : list A) :
  concat (map (fun _ => @nil B) l) = [].
Proof. induction l as [|x l IH]; [reflexivity|exact IH]. Qed.

(** X23. When the search text is absent, empty or a regular expression the
    store compiles, [getAllAuthors] answers and writes nothing; a page
    never holds more than [limit] authors; [total] counts the stored
    authors the filters select, none of them soft-deleted; and [pages] is
    the least number of pages of [limit] that hold [total] authors.  With
    any other search text the listing fails with the store's error,
    whatever the collection holds. *)
Theorem getAllAuthors_page_and_counts (f : AuthorFilters) (w : World) :
  (queryAccepted f = true ->
   exists r,
     getAllAuthors f w = (Ok r, w) /\
     (List.length (page_authors r) <= Pos.to_nat (limitOf f))%nat /\
     total (pagination r)
     = N.of_nat (List.length (filter (listQuery f) (authors w))) /\
     (forall a, In a (filter (listQuery f) (authors w)) ->
                isDeleted a = false) /\
     (total (pagination r)
      <= pages (pagination r) * Npos (limitOf f))%N /\
     (pages (pagination r) * Npos (limitOf f)
      < total (pagination r) + Npos (limitOf f))%N) /\
  (queryAccepted f = false ->
   getAllAuthors f w
   = (Throw (MongoServerError "Regular expression is invalid"), w)).
Proof.
  split; [|apply getAllAuthors_rejected].
  intros Hq.
  destruct (getAllAuthors_run f w Hq) as (r & Hr & Hp & Hn).
  exists r. split; [exact Hr|]. rewrite Hp, Hn. cbn [total pages].
  split; [apply firstn_le_length|]. split; [reflexivity|].
  split.
  - intros a Ha. apply filter_In in Ha. destruct Ha as [_ Ha].
    unfold listQuery in Ha. apply andb_true_iff in Ha.
    destruct Ha as [Ha _]. apply andb_true_iff in Ha.
    destruct Ha as [Ha _]. apply andb_true_iff in Ha.
    destruct Ha as [Ha _]. now destruct (isDeleted a).
  - apply pageCount_bounds.
Qed.

(** X24. When sorting keeps the number of documents, the pages 1 to
    [pages] of a listing, put end to end, are exactly the selected authors
    in the order asked for, each once; and every page after [pages] is
    empty. *)
Theorem getAllAuthors_pages_partition (f : AuthorFilters) (w : World) :
  (forall field descending l,
      List.length (sortAuthors field descending l) = List.length l) ->
  let count := N.of_nat (List.length (filter (listQuery f) (authors w))) in
  concat
    (map (fun i => authorsOnPage f (Pos.of_succ_nat i) w)
       (seq 0 (N.to_nat (pageCount count (limitOf f)))))
  = allListed f w /\
  forall p, (pageCount count (limitOf f) < Npos p)%N ->
            authorsOnPage f p w = [].
Proof.
  intros Hsort count.
  destruct (queryAccepted f) eqn:Hq.
  - assert (Hlen : List.length (allListed f w) = N.to_nat count).
    { unfold allListed, count. rewrite Hq, length_map, Hsort. lia. }
    assert (Hpage : forall p,
      authorsOnPage f p w
      = firstn (Pos.to_nat (limitOf f))
          (skipn (N.to_nat ((Npos p - 1) * Npos (limitOf f)))
             (allListed f w))).
    { intros p. unfold authorsOnPage.
      match goal with |- context [getAllAuthors ?g w] =>
        destruct (getAllAuthors_run g w Hq) as (r & Hr & Hp & _);
        rewrite Hr, Hp
      end.
      unfold allListed. cbn [search sortBy sortOrder filter_role
                             filter_isActive limit page].
      reflexivity. }
    pose proof (pageCount_bounds count (limitOf f)) as [B1 B2].
    split.
    + rewrite (map_ext _
        (fun i => firstn (Pos.to_nat (limitOf f))
                    (skipn (i * Pos.to_nat (limitOf f)) (allListed f w)))).
      * rewrite concat_chunks. apply firstn_all2. rewrite Hlen. lia.
      * intros i. rewrite Hpage. do 2 f_equal. lia.
    + intros p Hp. rewrite Hpage.
      rewrite skipn_all2; [apply firstn_nil|]. rewrite Hlen. nia.
  - assert (Hpage : forall p, authorsOnPage f p w = []).
    { intros p. unfold authorsOnPage.
      rewrite getAllAuthors_rejected by exact Hq. reflexivity. }
    split; [|intros p _; apply Hpage].
    unfold allListed. rewrite Hq.
    rewrite (map_ext _ (fun _ => @nil Document)) by (intros i; apply Hpage).
    apply concat_map_nil.
Qed.

End Listing.

(* ===================================================================== *)
(** ** The public id taken from a media URL                              *)
(* ===================================================================== *)

Lemma splitOn_nonempty (c : Ascii.ascii) (s : string) : splitOn c s <> [].
Proof.
  induction s as [|x rest IH]; cbn; [discriminate|].
  destruct (Ascii.eqb x c); [discriminate|].
  destruct (splitOn c rest); discriminate.
Qed.

Lemma splitOn_free (c : Ascii.ascii) (p : string) :
  freeOf c p = true -> splitOn c p = [p].
Proof.
  induction p as [|x rest IH]; cbn; [reflexivity|].
  intros H. apply andb_true_iff in H. destruct H as [Hx H].
  destruct (Ascii.eqb x c); [discriminate|]. now rewrite (IH H).
Qed.

Lemma splitOn_app (c : Ascii.ascii) (p rest : string) :
  freeOf c p = true ->
  splitOn c (p ++ String.String c rest) = p :: splitOn c rest.
Proof.
  induction p as [|x p IH]; cbn.
  - intros _. now rewrite Ascii.eqb_refl.
  - intros H. apply andb_true_iff in H. destruct H as [Hx H].
    destruct (Ascii.eqb x c); [discriminate|]. now rewrite (IH H).
Qed.

Lemma splitOn_joinWith (c : Ascii.ascii) (parts : list string) :
  parts <> [] ->
  Forall (fun p => freeOf c p = true) parts ->
  splitOn c (joinWith c parts) = parts.
Proof.
  induction parts as [|p ps IH]; [congruence|].
  intros _ H. inversion H as [|? ? Hp Hps]; subst.
  destruct ps as [|q ps].
  - cbn. now apply splitOn_free.
  - change (joinWith c (p :: q :: ps))
      with (p ++ String.String c (joinWith c (q :: ps)))%string.
    rewrite (splitOn_app c p _ Hp). f_equal.
    apply IH; [discriminate|exact Hps].
Qed.

Lemma splitOn_parts_free (c : Ascii.ascii) (s : string) :
  Forall (fun p => freeOf c p = true) (splitOn c s).
Proof.
  induction s as [|x rest IH]; cbn; [repeat constructor|].
  destruct (Ascii.eqb x c) eqn:E; [constructor; [reflexivity|exact IH]|].
  destruct (splitOn c rest) as [|p ps]; [repeat constructor; cbn; now rewrite E|].
  inversion IH; subst. constructor; [cbn; now rewrite E|assumption].
Qed.

Lemma hd_splitOn_prefix (c : Ascii.ascii) (s : string) :
  String.prefix (hd EmptyString (splitOn c s)) s = true.
Proof.
  induction s as [|x rest IH]; cbn; [reflexivity|].
  destruct (Ascii.eqb x c); [reflexivity|].
  pose proof (splitOn_nonempty c rest).
  destruct (splitOn c rest) as [|p ps]; [congruence|]. cbn in *.
  destruct (Ascii.ascii_dec x x); [exact IH|congruence].
Qed.

Lemma indexOf_app_found (target : string) (pre rest : list string) :
  Forall (fun p => p <> target) pre ->
  indexOf target (pre ++ target :: rest) = Some (List.length pre).
Proof.
  induction pre as [|p pre IH]; cbn.
  - intros _. now rewrite String.eqb_refl.
  - intros H. inversion H as [|? ? Hp Hpre]; subst.
    destruct (String.eqb_spec p target); [contradiction|].
    now rewrite (IH Hpre).
Qed.

Lemma string_append_assoc (a b c : string) :
  ((a ++ b) ++ c = a ++ (b ++ c))%string.
Proof. induction a as [|x a IH]; cbn; [reflexivity|now rewrite IH]. Qed.

Lemma joinWith_snoc_app (c : Ascii.ascii) (l : list string) (x y : string) :
  joinWith c (l ++ [(x ++ y)%string])
  = (joinWith c (l ++ [x]) ++ y)%string.
Proof.
  induction l as [|p l IH]; [reflexivity|].
  destruct l as [|q l].
  - cbn. now rewrite string_append_assoc.
  - change (joinWith c ((p :: q :: l) ++ [(x ++ y)%string]))
      with (p ++ String.String c (joinWith c ((q :: l) ++ [(x ++ y)%string])))%string.
    change (joinWith c ((p :: q :: l) ++ [x]))
      with (p ++ String.String c (joinWith c ((q :: l) ++ [x])))%string.
    rewrite IH. rewrite string_append_assoc. reflexivity.
Qed.

Lemma freeOf_append (c : Ascii.ascii) (a b : string) :
  freeOf c (a ++ b) = freeOf c a && freeOf c b.
Proof.
  induction a as [|x a IH]; cbn; [reflexivity|].
  now rewrite IH, andb_assoc.
Qed.

Lemma freeOf_joinWith (c sep : Ascii.ascii) (parts : list string) :
  Ascii.eqb sep c = false ->
  Forall (fun p => freeOf c p = true) parts ->
  freeOf c (joinWith sep parts) = true.
Proof.
  intros Hsep. induction parts as [|p ps IH]; [reflexivity|].
  intros H. inversion H as [|? ? Hp Hps]; subst.
  destruct ps as [|q ps]; [exact Hp|].
  change (joinWith sep (p :: q :: ps))
    with (p ++ String.String sep (joinWith sep (q :: ps)))%string.
  rewrite freeOf_append, Hp. cbn. rewrite Hsep. cbn. exact (IH Hps).
Qed.

(** X25. For a media URL of the usual shape, any parts, then [upload], a
    version, folders and [name.ext], the public id handed to the uploader
    is the folders and the name joined by slashes, without version and
    without extension (the parts before [upload] not being [upload]
    themselves, and folders and name holding no dot). *)
Theorem publicIdOf_standard_url
    (pre segs : list string) (version name ext : string) :
  Forall (fun p => freeOf "/"%char p = true /\ p <> "upload") pre ->
  freeOf "/"%char version = true ->
  Forall (fun p => freeOf "/"%char p = true /\ freeOf "."%char p = true)
    (segs ++ [name]) ->
  freeOf "/"%char ext = true ->
  publicIdOf
    (joinWith "/"%char
       (pre ++ "upload" :: version
            :: segs ++ [(name ++ String.String "."%char ext)%string]))
  = joinWith "/"%char (segs ++ [name]).
Proof.
  intros Hpre Hversion Hsegs Hext.
  assert (Hname : freeOf "/"%char name = true).
  { apply Forall_app in Hsegs. destruct Hsegs as [_ H].
    inversion H as [|? ? [H1 _] _]; subst. exact H1. }
  assert (Hsegs1 : Forall (fun p => freeOf "/"%char p = true) segs).
  { apply Forall_app in Hsegs. destruct Hsegs as [H _].
    eapply Forall_impl; [|exact H]. cbn. intros p [H1 _]. exact H1. }
  unfold publicIdOf, publicIdWithExtension.
  rewrite splitOn_joinWith.
  - rewrite indexOf_app_found.
    + replace (List.length pre + 2)%nat
        with (List.length pre + 2 + 0)%nat by lia.
      rewrite skipn_app, skipn_all2 by lia.
      replace (List.length pre + 2 + 0 - List.length pre)%nat with 2%nat by lia.
      cbn [skipn app].
      rewrite joinWith_snoc_app, splitOn_app; [reflexivity|].
      apply freeOf_joinWith; [reflexivity|].
      eapply Forall_impl; [|exact Hsegs]. cbn. intros p [_ H2]. exact H2.
    + eapply Forall_impl; [|exact Hpre]. cbn. intros p [_ H2]. exact H2.
  - now destruct pre.
  - apply Forall_app. split.
    + eapply Forall_impl; [|exact Hpre]. cbn. intros p [H1 _]. exact H1.
    + constructor; [reflexivity|]. constructor; [exact Hversion|].
      apply Forall_app. split; [exact Hsegs1|].
      constructor; [|constructor].
      rewrite freeOf_append, Hname. cbn. exact Hext.
Qed.

(** X26. Whatever the URL, the public id holds no dot and is a prefix of
    the path that follows the version segment: the path is cut at its
    first dot, also when that dot is inside a folder or file name. An
    empty URL is never sent to the uploader, and an answer other than "ok"
    is reported as a failure. *)
Theorem publicIdOf_is_cut_at_the_first_dot
    (destroy : string -> string) (fileUrl : string) :
  freeOf "."%char (publicIdOf fileUrl) = true /\
  String.prefix (publicIdOf fileUrl) (publicIdWithExtension fileUrl) = true /\
  deleteFromCloudinary destroy "" = NothingToDelete /\
  (fileUrl <> "" ->
   deleteFromCloudinary destroy fileUrl
   = if (destroy (publicIdOf fileUrl) =? "ok")%string then Destroyed
     else DeletionFailed (destroy (publicIdOf fileUrl))).
Proof.
  repeat split.
  - unfold publicIdOf.
    pose proof (splitOn_parts_free "."%char (publicIdWithExtension fileUrl)) as H.
    pose proof (splitOn_nonempty "."%char (publicIdWithExtension fileUrl)).
    destruct (splitOn "."%char (publicIdWithExtension fileUrl)); [congruence|].
    inversion H; subst. assumption.
  - apply hd_splitOn_prefix.
  - intros Hne. unfold deleteFromCloudinary.
    destruct (String.eqb_spec fileUrl ""); [contradiction|].
    now destruct (destroy (publicIdOf fileUrl) =? "ok")%string.
Qed.

(* ===================================================================== *)
(** ** The further theorems at concrete inputs                           *)
(* ===================================================================== *)

Import Fixtures.

Lemma getAuthorById_returns_undeleted_without_secrets_witness :
  getAuthorById 8%N newsroom
  = (Ok (hydrate (applySelect [] bob)), newsroom) /\
  _id (hydrate (applySelect [] bob)) = 8%N /\
  isDeleted (hydrate (applySelect [] bob)) = false /\
  password (hydrate (applySelect [] bob)) = None /\
  refreshToken (hydrate (applySelect [] bob)) = None.
Proof.
  assert (H : getAuthorById 8%N newsroom
              = (Ok (hydrate (applySelect [] bob)), newsroom))
    by reflexivity.
  split; [exact H|].
  destruct (getAuthorById_returns_undeleted_without_secrets
              8%N newsroom newsroom (hydrate (applySelect [] bob)) H)
    as (_ & H1 & H2 & H3 & _ & _ & _ & H4).
  auto.
Defined.

Lemma getAuthorById_not_found_iff_witness :
  fst (getAuthorById 7%N (world [aliceDeleted; bob]))
  = Throw (ApiError NOT_FOUND "Author not found").
Proof.
  apply (proj1 (getAuthorById_not_found_iff 7%N
                  (world [aliceDeleted; bob]))).
  intros a [<-|[<-|[]]]; [reflexivity|discriminate].
Defined.

Lemma deleted_author_is_not_found_witness :
  NoDup (map _id (authors newsroom)) /\
  (exists r w',
      deleteAuthorById 8%N newsroom = (Ok r, w') /\
      fst (getAuthorById 8%N w')
      = Throw (ApiError NOT_FOUND "Author not found") /\
      fst (deleteAuthorById 8%N w')
      = Throw (ApiError NOT_FOUND "Author not found")).
Proof.
  assert (Hnd : NoDup (map _id (authors newsroom))).
  { cbn. repeat constructor; cbn; intuition discriminate. }
  split; [exact Hnd|].
  eexists. eexists. split; [reflexivity|].
  eapply (deleted_author_is_not_found 8%N newsroom _ _ Hnd).
  reflexivity.
Defined.

Lemma deleteAuthorById_sets_only_isDeleted_witness :
  exists r w',
    deleteAuthorById 8%N newsroom = (Ok r, w') /\
    lookupById 8%N (authors w') = Some (with_isDeleted true bob) /\
    lookupById 7%N (authors w') = lookupById 7%N (authors newsroom).
Proof.
  eexists. eexists. split; [reflexivity|].
  destruct (deleteAuthorById_sets_only_isDeleted 8%N newsroom _ _
              eq_refl) as (s & Hs & _ & Hd & Hframe).
  cbv in Hs. injection Hs as <-.
  split; [exact Hd|]. apply Hframe. discriminate.
Defined.

Lemma deleted_author_token_is_refused_witness :
  exists r w',
    deleteAuthorById 7%N newsroom = (Ok r, w') /\
    fst (verifyJWT (P:=PJ) requestWithOldToken w')
    = Throw (ApiError 401 "Unauthorized - Account has been deleted").
Proof.
  eexists. eexists. split; [reflexivity|].
  eapply (deleted_author_token_is_refused (P:=PJ) 7%N newsroom);
    reflexivity.
Defined.

Lemma logoutAuthor_unknown_id_fails_with_500_witness :
  lookupById 99%N (authors newsroom) = None /\
  fst (logoutAuthor (P:=P0) 99%N newsroom)
  = Throw (ApiError INTERNAL_SERVER_ERROR "Logout failed") /\
  authors (snd (logoutAuthor (P:=P0) 99%N newsroom)) = authors newsroom.
Proof.
  split; [reflexivity|].
  apply (logoutAuthor_unknown_id_fails_with_500 (P:=P0) 99%N newsroom).
  reflexivity.
Defined.

Lemma logoutAuthor_clears_refreshToken_witness :
  lookupById 8%N (authors newsroom) = Some bob /\
  refreshToken bob = Some "refresh.8" /\
  fst (logoutAuthor (P:=P0) 8%N newsroom) = Ok tt /\
  lookupById 8%N (authors (snd (logoutAuthor (P:=P0) 8%N newsroom)))
  = Some (with_lastActive (Some 1700000000000) (with_refreshToken None bob)).
Proof.
  split; [reflexivity|]. split; [reflexivity|].
  destruct (logoutAuthor_clears_refreshToken (P:=P0) 8%N newsroom bob
              eq_refl) as (H1 & H2 & _).
  split; [exact H1|exact H2].
Defined.

Lemma logoutAuthor_twice_witness :
  lookupById 8%N (authors newsroom) = Some bob /\
  fst (logoutAuthor (P:=P0) 8%N (snd (logoutAuthor (P:=P0) 8%N newsroom)))
  = Ok tt.
Proof.
  split; [reflexivity|].
  exact (proj1 (logoutAuthor_twice (P:=P0) 8%N newsroom bob eq_refl)).
Defined.

Lemma successful_login_records_the_session_witness :
  exists res w',
    loginAuthor (P:=P0) "bob@example.com" "hunter22" firefox "10.0.0.2"
      newsroom = (Ok res, w') /\
    exists a s,
      find (matchesLogin (P:=P0) "bob@example.com") (authors newsroom)
      = Some a /\
      lookupById (_id a) (authors newsroom) = Some s /\
      view_id (author res) = _id a /\
      lookupById (_id a) (authors w')
      = Some
          (with_refreshToken (Some (refreshToken_issued res))
             (with_lastActive
                (Some (Date_now (Platform:=P0)
                         (S (ticksAfterLockTest a newsroom))))
                (with_loginHistory
                   (loginHistory a
                    ++ [historyEntry (P:=P0) firefox "10.0.0.2"
                          (ticksAfterLockTest a newsroom)])
                   (with_lockUntil None (with_loginAttempts (Some 0) s))))) /\
      (forall id',
          id' <> _id a ->
          lookupById id' (authors w') = lookupById id' (authors newsroom)).
Proof.
  destruct (loginAuthor (P:=P0) "bob@example.com" "hunter22" firefox
              "10.0.0.2" newsroom) as [[res|e] w'] eqn:Hrun;
    [|vm_compute in Hrun; discriminate].
  exists res, w'. split; [reflexivity|].
  exact (successful_login_records_the_session (P:=P0) "bob@example.com"
           "hunter22" firefox "10.0.0.2" newsroom w' res Hrun).
Defined.

Lemma logout_after_login_drops_the_refresh_token_witness :
  exists res w1,
    loginAuthor (P:=P0) "bob@example.com" "hunter22" firefox "10.0.0.2"
      newsroom = (Ok res, w1) /\
    fst (logoutAuthor (P:=P0) (view_id (author res)) w1) = Ok tt.
Proof.
  destruct (loginAuthor (P:=P0) "bob@example.com" "hunter22" firefox
              "10.0.0.2" newsroom) as [[res|e] w1] eqn:Hrun;
    [|vm_compute in Hrun; discriminate].
  exists res, w1. split; [reflexivity|].
  exact (proj1 (logout_after_login_drops_the_refresh_token (P:=P0)
                  "bob@example.com" "hunter22" firefox "10.0.0.2"
                  newsroom w1 res Hrun)).
Defined.

Lemma expired_lock_reaches_the_password_gate_witness :
  find (matchesLogin (P:=P0) "alice@example.com")
    (authors (world [aliceStale]))
  = Some aliceStale /\
  lockUntil aliceStale = Some 1699990000000 /\
  1699990000000 <= Date_now (Platform:=P0) (ticks (world [aliceStale])) /\
  firstn 3
    (gateEvents
       (newEvents (world [aliceStale])
          (snd (loginAuthor (P:=P0) "alice@example.com" "wrong" firefox
                  "10.0.0.1" (world [aliceStale])))))
  = [EvGate GateExists true; EvGate GateNotLocked true;
     EvGate GatePassword false].
Proof.
  split; [reflexivity|]. split; [reflexivity|].
  split; [discriminate|].
  apply (expired_lock_reaches_the_password_gate (P:=P0) "alice@example.com"
           "wrong" firefox "10.0.0.1" (world [aliceStale]) aliceStale
           1699990000000 (hashOf "correct horse"));
    solve [reflexivity | discriminate].
Defined.

Lemma failed_login_counts_one_attempt_witness :
  fst (loginAuthor (P:=P0) "carol@example.com" "wrong" firefox "10.0.0.3"
         newsroom) = Throw invalidCredentials /\
  (exists d,
      lookupById 9%N
        (authors (snd (loginAuthor (P:=P0) "carol@example.com" "wrong"
                         firefox "10.0.0.3" newsroom))) = Some d /\
      loginAttempts d = Some 1) /\
  lookupById 8%N
    (authors (snd (loginAuthor (P:=P0) "carol@example.com" "wrong" firefox
                     "10.0.0.3" newsroom)))
  = lookupById 8%N (authors newsroom).
Proof.
  assert (H : fst (loginAuthor (P:=P0) "carol@example.com" "wrong" firefox
                     "10.0.0.3" newsroom) = Throw invalidCredentials)
    by (vm_compute; reflexivity).
  split; [exact H|].
  destruct (failed_login_counts_one_attempt (P:=P0) "carol@example.com"
              "wrong" firefox "10.0.0.3" newsroom carol carol
              (hashOf "tr0ub4dor") eq_refl eq_refl eq_refl eq_refl eq_refl
              eq_refl H) as [Hd Hframe].
  split; [exact Hd|]. apply Hframe. discriminate.
Defined.


Lemma verifyJWT_admits_the_named_undeleted_author_witness :
  exists d w',
    verifyJWT (P:=PJ) requestWithOldToken newsroom = (Ok d, w') /\
    _id d = 7%N /\ isDeleted d = false /\ password d = None.
Proof.
  eexists. eexists. split; [vm_compute; reflexivity|].
  destruct (verifyJWT_admits_the_named_undeleted_author (P:=PJ)
              requestWithOldToken newsroom _ _ eq_refl)
    as (tok & s & Htok & _ & H1 & H2 & _ & _ & H3 & _).
  vm_compute in Htok. injection Htok as <-.
  split; [exact H1|]. split; [exact H2|exact H3].
Defined.

Lemma verifyJWT_refusals_witness :
  fst (verifyJWT (P:=P0) (mkRequest None (Some "Bearer forged")) newsroom)
  = Throw (ApiError 401 "Unauthorized - Invalid token") /\
  ((exists m, ApiError 401 "Unauthorized - Invalid token" = ApiError 401 m) \/
   (ApiError 401 "Unauthorized - Invalid token"
    = ApiError 500 "Token verification failed" /\
    exists name,
      jwt_verify (Platform:=P0)
        (Js.ToString (bearerToken (mkRequest None (Some "Bearer forged"))))
        (process_env (Platform:=P0) "ACCESS_TOKEN_SECRET")
      = VerifyError name /\
      name <> "TokenExpiredError" /\ name <> "JsonWebTokenError")).
Proof.
  split; [reflexivity|].
  apply (verifyJWT_refusals (P:=P0) (mkRequest None (Some "Bearer forged"))
           newsroom).
  reflexivity.
Defined.

Lemma verifyJWT_cookie_takes_precedence_witness :
  "alice.before-change" <> "" /\
  verifyJWT (P:=PJ)
    (mkRequest (Some "alice.before-change") (Some "Bearer forged")) newsroom
  = verifyJWT (P:=PJ) (mkRequest (Some "alice.before-change") None) newsroom.
Proof.
  split; [discriminate|].
  apply (verifyJWT_cookie_takes_precedence (P:=PJ)). discriminate.
Defined.

Lemma verifyJWT_reads_the_bearer_header_witness :
  verifyJWT (P:=PJ) (mkRequest None (Some "Bearer alice.before-change"))
    newsroom
  = verifyJWT (P:=PJ) (mkRequest (Some "alice.before-change") None) newsroom.
Proof.
  exact (proj1 (proj2 (verifyJWT_reads_the_bearer_header (P:=PJ) None
                         "alice.before-change" newsroom (or_introl eq_refl)))).
Defined.

Lemma newsPreSave_accepts_iff_positions_distinct_witness :
  newsPreSave true [post 1; post 2; post 3] = None /\
  newsPreSave true [post 1; post 2; post 1]
  = Some "Post positions must be unique within a news item".
Proof.
  split.
  - apply (proj1 (newsPreSave_accepts_iff_positions_distinct
                    [post 1; post 2; post 3])).
    cbn. repeat constructor; cbn; intuition discriminate.
  - apply (proj1 (proj2 (newsPreSave_accepts_iff_positions_distinct
                           [post 1; post 2; post 1]))).
    discriminate.
Defined.

Lemma asciiLower_fixes_slugs (s : JsString) :
  slugUnits s = true -> asciiLower s = s.
Proof.
  unfold slugUnits, asciiLower.
  induction s as [|u rest IH]; [reflexivity|]. cbn.
  intros H. apply andb_true_iff in H. destruct H as [Hu H].
  rewrite (IH H). f_equal.
  destruct ((65 <=? u) && (u <=? 90))%N eqn:E; [|reflexivity].
  exfalso. unfold isSlugUnit, HYPHEN in Hu.
  apply andb_true_iff in E. destruct E as [E1 E2].
  apply N.leb_le in E1, E2.
  apply orb_true_iff in Hu. destruct Hu as [Hu|Hu].
  - apply orb_true_iff in Hu. destruct Hu as [Hu|Hu];
      apply andb_true_iff in Hu; destruct Hu as [L1 L2];
      apply N.leb_le in L1, L2; lia.
  - apply N.eqb_eq in Hu. lia.
Qed.

Lemma slugOf_is_idempotent_witness :
  slugOf asciiLower headline = unitsOf "breaking-news-views" /\
  slugOf asciiLower (slugOf asciiLower headline) = slugOf asciiLower headline.
Proof.
  split; [reflexivity|].
  apply (slugOf_is_idempotent asciiLower headline asciiLower_fixes_slugs).
Defined.

Lemma getAllAuthors_page_and_counts_witness :
  queryAccepted (Q:=testEngine)
    (mkAuthorFilters (Some "Al") None None None None None None) = true /\
  (exists r,
      getAllAuthors (Q:=testEngine)
        (mkAuthorFilters (Some "Al") None None None None None None) newsroom
      = (Ok r, newsroom) /\
      total (pagination r) = 1%N /\ pages (pagination r) = 1%N) /\
  queryAccepted (Q:=testEngine)
    (mkAuthorFilters (Some "(") None None None None None None) = false /\
  getAllAuthors (Q:=testEngine)
    (mkAuthorFilters (Some "(") None None None None None None) newsroom
  = (Throw (MongoServerError "Regular expression is invalid"), newsroom).
Proof.
  split; [reflexivity|]. split.
  - destruct (proj1 (getAllAuthors_page_and_counts (Q:=testEngine)
                       (mkAuthorFilters (Some "Al") None None None None None
                          None) newsroom) eq_refl)
      as (r & Hr & _ & Ht & _).
    exists r. split; [exact Hr|].
    vm_compute in Hr. injection Hr as <-. split; reflexivity.
  - split; [reflexivity|].
    exact (proj2 (getAllAuthors_page_and_counts (Q:=testEngine)
                    (mkAuthorFilters (Some "(") None None None None None None)
                    newsroom) eq_refl).
Defined.

Lemma getAllAuthors_pages_partition_witness :
  pageCount 3 2 = 2%N /\
  authorsOnPage (Q:=testEngine) twoPerPage 1 newsroom
  ++ authorsOnPage (Q:=testEngine) twoPerPage 2 newsroom
  = allListed (Q:=testEngine) twoPerPage newsroom /\
  authorsOnPage (Q:=testEngine) twoPerPage 3 newsroom = [].
Proof.
  split; [reflexivity|].
  assert (Hsort : forall field descending l,
             List.length (sortAuthors (QueryEngine:=testEngine) field
                            descending l) = List.length l).
  { intros field descending l. cbn.
    destruct descending; [apply length_rev|reflexivity]. }
  destruct (getAllAuthors_pages_partition (Q:=testEngine) twoPerPage
              newsroom Hsort) as [Hall Hafter].
  split.
  - rewrite <- Hall. vm_compute. reflexivity.
  - apply Hafter. reflexivity.
Defined.

Lemma publicIdOf_standard_url_witness :
  publicIdOf mediaUrl = "category_images/sports".
Proof.
  apply (publicIdOf_standard_url
           ["http:"; ""; "res.cloudinary.com"; "demo"; "image"]
           ["category_images"] "v1712345678" "sports" "jpg").
  - repeat constructor; discriminate.
  - reflexivity.
  - repeat constructor.
  - reflexivity.
Defined.

Lemma publicIdOf_is_cut_at_the_first_dot_witness :
  publicIdOf
    "http://res.cloudinary.com/demo/image/upload/v1/category_images/team.photo.jpg"
  = "category_images/team" /\
  freeOf "."%char
    (publicIdOf
       "http://res.cloudinary.com/demo/image/upload/v1/category_images/team.photo.jpg")
  = true.
Proof.
  split; [reflexivity|].
  exact (proj1 (publicIdOf_is_cut_at_the_first_dot (fun _ => "ok")
                  "http://res.cloudinary.com/demo/image/upload/v1/category_images/team.photo.jpg")).
Defined.
